(** * The WebApp operator: reconciliation of a WebApp custom resource

    A shallow embedding of [main.go]: the [WebApp] resource and the parts of
    the Kubernetes objects the operator builds, the two synthesizers
    [deploymentForWebApp] and [serviceForWebApp], and [Reconcile] written
    against the [Client] interface.  The API server is an in-memory
    [Cluster]; it takes the place of the store the operator talks to. *)

From Stdlib Require Import ZArith String List Lia DecimalString.
From stdpp Require Import base option gmap strings list.

Local Open Scope Z_scope.
Local Open Scope string_scope.
Local Open Scope list_scope.

(** ** Data model *)

(** Go's [int32] fields are only copied and compared by the operator, no
    arithmetic is done on them, so they are integers without wrap-around. *)
Definition int32 : Type := Z.

(** [metav1.Time], seconds on the cluster clock. *)
Definition Time : Type := Z.

(** [time.Duration] counts nanoseconds. *)
Definition Duration : Type := Z.
Definition Second : Duration := 1000000000.

Module types.
Record NamespacedName := {
  Namespace : string;
  Name : string
}.
End types.

#[global] Instance NamespacedName_eq_dec : EqDecision types.NamespacedName.
Proof. solve_decision. Defined.

#[global] Instance NamespacedName_countable : Countable types.NamespacedName.
Proof.
  refine (inj_countable'
            (λ k, (types.Namespace k, types.Name k))
            (λ p, {| types.Namespace := p.1; types.Name := p.2 |}) _).
  by intros [].
Defined.

Module metav1.
Inductive ConditionStatus := ConditionTrue | ConditionFalse | ConditionUnknown.

Record Condition := {
  cond_Type : string;
  cond_Status : ConditionStatus;
  cond_Reason : string;
  cond_Message : string;
  cond_LastTransitionTime : Time
}.

Record OwnerReference := {
  ref_APIVersion : string;
  ref_Kind : string;
  ref_Name : string;
  ref_UID : string;
  ref_Controller : bool;
  ref_BlockOwnerDeletion : bool
}.

Record ObjectMeta := {
  Name : string;
  Namespace : string;
  UID : string;
  Labels : gmap string string;
  OwnerReferences : list OwnerReference
}.

Record LabelSelector := {
  MatchLabels : gmap string string
}.
End metav1.

Module intstr.
Inductive IntOrString :=
| Int (IntVal : int32)
| String (StrVal : string).

Definition FromInt (val : Z) : IntOrString := Int val.
End intstr.

Module corev1.
Record EnvVar := {
  env_Name : string;
  env_Value : string
}.

Record ContainerPort := {
  cp_ContainerPort : int32;
  cp_Name : string
}.

Record Container := {
  c_Name : string;
  c_Image : string;
  c_Ports : list ContainerPort;
  c_Env : list EnvVar
}.

Record PodSpec := {
  Containers : list Container
}.

Record PodTemplateSpec := {
  tpl_ObjectMeta : metav1.ObjectMeta;
  tpl_Spec : PodSpec
}.

Inductive Protocol := ProtocolTCP | ProtocolUDP | ProtocolSCTP.
Inductive ServiceType :=
  ServiceTypeClusterIP | ServiceTypeNodePort | ServiceTypeLoadBalancer.

Record ServicePort := {
  sp_Port : int32;
  sp_TargetPort : intstr.IntOrString;
  sp_Protocol : Protocol;
  sp_Name : string
}.

Record ServiceSpec := {
  Selector : gmap string string;
  Ports : list ServicePort;
  Type_ : ServiceType
}.

Record Service := {
  ObjectMeta : metav1.ObjectMeta;
  Spec : ServiceSpec
}.
End corev1.

Module appsv1.
(** [Replicas] is a [*int32] in Go: [None] is the nil pointer. *)
Record DeploymentSpec := {
  Replicas : option int32;
  Selector : option metav1.LabelSelector;
  Template : corev1.PodTemplateSpec
}.

Record DeploymentStatus := {
  AvailableReplicas : int32
}.

Record Deployment := {
  ObjectMeta : metav1.ObjectMeta;
  Spec : DeploymentSpec;
  Status : DeploymentStatus
}.
End appsv1.

(** The custom resource. *)
Record EnvVar := {
  env_Name : string;
  env_Value : string
}.

Record WebAppSpec := {
  Image : string;
  Replicas : int32;
  Port : int32;
  Env : list EnvVar
}.

Record WebAppStatus := {
  AvailableReplicas : int32;
  Conditions : list metav1.Condition
}.

Record WebApp := {
  ObjectMeta : metav1.ObjectMeta;
  Spec : WebAppSpec;
  Status : WebAppStatus
}.

(** [webapp.Name] and [webapp.Namespace]: the promoted fields of the
    embedded [ObjectMeta]. *)
Definition Name (w : WebApp) : string := metav1.Name (ObjectMeta w).
Definition Namespace (w : WebApp) : string := metav1.Namespace (ObjectMeta w).

(** The identity under which an object is stored. *)
Definition meta_key (m : metav1.ObjectMeta) : types.NamespacedName :=
  {| types.Namespace := metav1.Namespace m; types.Name := metav1.Name m |}.

Definition webapp_key (w : WebApp) : types.NamespacedName :=
  {| types.Namespace := Namespace w; types.Name := Name w |}.

(** ** Owner references *)

(** The group, version and kind under which [main] registers [WebApp]. *)
Definition WebAppAPIVersion : string := "example.com/v1".
Definition WebAppKind : string := "WebApp".

Module controllerutil.
(** [SetControllerReference] on an object that has no controller yet and
    lives in its owner's namespace: the owner is recorded as the
    controller.  Both synthesizers call it on an object they have just
    built, and drop the error it returns. *)
Definition SetControllerReference (owner : WebApp) (m : metav1.ObjectMeta)
  : metav1.ObjectMeta :=
  {| metav1.Name := metav1.Name m;
     metav1.Namespace := metav1.Namespace m;
     metav1.UID := metav1.UID m;
     metav1.Labels := metav1.Labels m;
     metav1.OwnerReferences :=
       metav1.OwnerReferences m ++
       [ {| metav1.ref_APIVersion := WebAppAPIVersion;
            metav1.ref_Kind := WebAppKind;
            metav1.ref_Name := Name owner;
            metav1.ref_UID := metav1.UID (ObjectMeta owner);
            metav1.ref_Controller := true;
            metav1.ref_BlockOwnerDeletion := true |} ] |}.
End controllerutil.

(** ** The desired-state synthesizers *)

Definition labelsFor (webapp : WebApp) : gmap string string :=
  <["app" := Name webapp]> (<["managed-by" := "webapp-operator"]> ∅).

(** The loop that converts the resource's [EnvVar]s, appending one
    [corev1.EnvVar] per entry. *)
Fixpoint appendEnv (envVars : list corev1.EnvVar) (env : list EnvVar)
  : list corev1.EnvVar :=
  match env with
  | [] => envVars
  | e :: rest =>
      appendEnv
        (envVars ++ [ {| corev1.env_Name := env_Name e;
                         corev1.env_Value := env_Value e |} ])
        rest
  end.

Definition deploymentForWebApp (webapp : WebApp) : appsv1.Deployment :=
  let labels := labelsFor webapp in
  let replicas := Replicas (Spec webapp) in
  let port := Port (Spec webapp) in
  let port := if (port =? 0)%Z then 8080 else port in
  let envVars := appendEnv [] (Env (Spec webapp)) in
  {| appsv1.ObjectMeta :=
       controllerutil.SetControllerReference webapp
         {| metav1.Name := Name webapp;
            metav1.Namespace := Namespace webapp;
            metav1.UID := "";
            metav1.Labels := labels;
            metav1.OwnerReferences := [] |};
     appsv1.Spec :=
       {| appsv1.Replicas := Some replicas;
          appsv1.Selector := Some {| metav1.MatchLabels := labels |};
          appsv1.Template :=
            {| corev1.tpl_ObjectMeta :=
                 {| metav1.Name := "";
                    metav1.Namespace := "";
                    metav1.UID := "";
                    metav1.Labels := labels;
                    metav1.OwnerReferences := [] |};
               corev1.tpl_Spec :=
                 {| corev1.Containers :=
                      [ {| corev1.c_Name := Name webapp;
                           corev1.c_Image := Image (Spec webapp);
                           corev1.c_Ports :=
                             [ {| corev1.cp_ContainerPort := port;
                                  corev1.cp_Name := "http" |} ];
                           corev1.c_Env := envVars |} ] |} |} |};
     appsv1.Status := {| appsv1.AvailableReplicas := 0 |} |}.

Definition serviceForWebApp (webapp : WebApp) : corev1.Service :=
  let labels := labelsFor webapp in
  let port := Port (Spec webapp) in
  let port := if (port =? 0)%Z then 8080 else port in
  {| corev1.ObjectMeta :=
       controllerutil.SetControllerReference webapp
         {| metav1.Name := Name webapp;
            metav1.Namespace := Namespace webapp;
            metav1.UID := "";
            metav1.Labels := labels;
            metav1.OwnerReferences := [] |};
     corev1.Spec :=
       {| corev1.Selector := labels;
          corev1.Ports :=
            [ {| corev1.sp_Port := 80;
                 corev1.sp_TargetPort := intstr.FromInt port;
                 corev1.sp_Protocol := corev1.ProtocolTCP;
                 corev1.sp_Name := "http" |} ];
          corev1.Type_ := corev1.ServiceTypeClusterIP |} |}.

(** ** Errors and results *)

Module errors.
Inductive StatusReason :=
| StatusReasonNotFound
| StatusReasonAlreadyExists
| StatusReasonConflict
| StatusReasonServerTimeout
| StatusReasonInternalError.

(** Go's [error] values: an API status with its reason, or anything else
    (a network failure, a cancelled context). *)
Inductive error :=
| StatusError (reason : StatusReason)
| OtherError (msg : string).

Definition IsNotFound (err : error) : bool :=
  match err with
  | StatusError StatusReasonNotFound => true
  | _ => false
  end.
End errors.

Abbreviation error := errors.error.

(** What a read leaves behind: the object, or the error. *)
Inductive fallible (A : Type) :=
| Got (a : A)
| Failed (err : error).
Arguments Got {A} a.
Arguments Failed {A} err.

Definition fallible_err {A} (r : fallible A) : option error :=
  match r with
  | Got _ => None
  | Failed err => Some err
  end.

Module ctrl.
Record Request := {
  NamespacedName : types.NamespacedName
}.

Record Result := {
  Requeue : bool;
  RequeueAfter : Duration
}.
End ctrl.

(** ** The client interface *)

(** [client.Object]: the kinds of object the operator passes to the store. *)
Inductive Object :=
| ObjWebApp (w : WebApp)
| ObjDeployment (d : appsv1.Deployment)
| ObjService (s : corev1.Service).

Inductive Kind := KWebApp | KDeployment | KService.

(** [client.Client] as the reconciler uses it.  [St] is whatever stands
    behind the client; every operation may change it. *)
Class Client (St : Type) := {
  GetWebApp : types.NamespacedName → St → fallible WebApp * St;
  GetDeployment : types.NamespacedName → St → fallible appsv1.Deployment * St;
  GetService : types.NamespacedName → St → fallible corev1.Service * St;
  Create : Object → St → option error * St;
  Update : Object → St → option error * St;
  StatusUpdate : Object → St → option error * St
}.

(** One store operation as the reconciler issued it, with the error it got
    back. *)
Inductive Call :=
| CallGet (k : Kind) (key : types.NamespacedName)
| CallCreate (o : Object)
| CallUpdate (o : Object)
| CallStatusUpdate (o : Object).

Record Event := {
  ev_call : Call;
  ev_err : option error
}.

Definition is_write (c : Call) : bool :=
  match c with
  | CallGet _ _ => false
  | _ => true
  end.

Definition writes (tr : list Event) : list Event :=
  List.filter (λ ev, is_write (ev_call ev)) tr.

(** ** The reconciler's monad *)

(** A pass runs in a world: the store behind the client, the wall clock
    that [metav1.Now] reads, and the log of the store operations issued so
    far. *)
Record World (St : Type) := {
  api : St;
  clock : Time;
  calls : list Event
}.
Arguments api {St} _.
Arguments clock {St} _.
Arguments calls {St} _.

(** A Go function either returns or panics. *)
Inductive Outcome (A : Type) :=
| Done (a : A)
| Panic.
Arguments Done {A} a.
Arguments Panic {A}.

Definition M (St A : Type) : Type := World St → Outcome A * World St.

Definition ret {St A} (a : A) : M St A := λ w, (Done a, w).

Definition bind {St A B} (m : M St A) (k : A → M St B) : M St B :=
  λ w, match m w with
       | (Done a, w') => k a w'
       | (Panic, w') => (Panic, w')
       end.

Notation "x <- m ;; k" := (bind m (λ x, k))
  (at level 100, m at next level, right associativity).

Definition log {St} (w : World St) (st : St) (c : Call) (e : option error)
  : World St :=
  {| api := st; clock := clock w;
     calls := calls w ++ [ {| ev_call := c; ev_err := e |} ] |}.

Section Reconciler.
Context {St : Type} `{Client St}.

Definition get_webapp (key : types.NamespacedName) : M St (fallible WebApp) :=
  λ w, let '(r, st) := GetWebApp key (api w) in
       (Done r, log w st (CallGet KWebApp key) (fallible_err r)).

Definition get_deployment (key : types.NamespacedName)
  : M St (fallible appsv1.Deployment) :=
  λ w, let '(r, st) := GetDeployment key (api w) in
       (Done r, log w st (CallGet KDeployment key) (fallible_err r)).

Definition get_service (key : types.NamespacedName)
  : M St (fallible corev1.Service) :=
  λ w, let '(r, st) := GetService key (api w) in
       (Done r, log w st (CallGet KService key) (fallible_err r)).

Definition create (o : Object) : M St (option error) :=
  λ w, let '(e, st) := Create o (api w) in
       (Done e, log w st (CallCreate o) e).

Definition update (o : Object) : M St (option error) :=
  λ w, let '(e, st) := Update o (api w) in
       (Done e, log w st (CallUpdate o) e).

Definition status_update (o : Object) : M St (option error) :=
  λ w, let '(e, st) := StatusUpdate o (api w) in
       (Done e, log w st (CallStatusUpdate o) e).

(** [metav1.Now()]. *)
Definition Now : M St Time := λ w, (Done (clock w), w).

(** [*p]: a nil pointer panics. *)
Definition deref {A} (p : option A) : M St A :=
  λ w, match p with
       | Some a => (Done a, w)
       | None => (Panic, w)
       end.

(** [%d] of [fmt.Sprintf]. *)
Definition fmt_d (n : int32) : string := NilZero.string_of_int (Z.to_int n).

(** [Reconcile] proper: the pair is Go's [(ctrl.Result, error)]. *)
Definition Reconcile (req : ctrl.Request) : M St (ctrl.Result * option error) :=
  (* STEP 1: Fetch the WebApp custom resource *)
  r <- get_webapp (ctrl.NamespacedName req) ;;
  match r with
  | Failed err =>
      if errors.IsNotFound err
      then ret ({| ctrl.Requeue := false; ctrl.RequeueAfter := 0 |}, None)
      else ret ({| ctrl.Requeue := false; ctrl.RequeueAfter := 0 |}, Some err)
  | Got webapp =>
      (* STEP 2: Check if Deployment exists, create if not *)
      r <- get_deployment {| types.Name := Name webapp;
                             types.Namespace := Namespace webapp |} ;;
      match r with
      | Failed err =>
          if errors.IsNotFound err then
            let dep := deploymentForWebApp webapp in
            err <- create (ObjDeployment dep) ;;
            match err with
            | Some err =>
                ret ({| ctrl.Requeue := false; ctrl.RequeueAfter := 0 |}, Some err)
            | None =>
                ret ({| ctrl.Requeue := true; ctrl.RequeueAfter := 0 |}, None)
            end
          else
            ret ({| ctrl.Requeue := false; ctrl.RequeueAfter := 0 |}, Some err)
      | Got deployment =>
          (* STEP 3: Ensure Deployment matches the spec *)
          replicas <- deref (appsv1.Replicas (appsv1.Spec deployment)) ;;
          if negb (replicas =? Replicas (Spec webapp))%Z then
            let deployment :=
              {| appsv1.ObjectMeta := appsv1.ObjectMeta deployment;
                 appsv1.Spec :=
                   {| appsv1.Replicas := Some (Replicas (Spec webapp));
                      appsv1.Selector := appsv1.Selector (appsv1.Spec deployment);
                      appsv1.Template := appsv1.Template (appsv1.Spec deployment) |};
                 appsv1.Status := appsv1.Status deployment |} in
            err <- update (ObjDeployment deployment) ;;
            match err with
            | Some err =>
                ret ({| ctrl.Requeue := false; ctrl.RequeueAfter := 0 |}, Some err)
            | None =>
                ret ({| ctrl.Requeue := true; ctrl.RequeueAfter := 0 |}, None)
            end
          else
            (* STEP 4: Check if Service exists, create if not *)
            r <- get_service {| types.Name := Name webapp;
                                types.Namespace := Namespace webapp |} ;;
            match r with
            | Failed err =>
                if errors.IsNotFound err then
                  let svc := serviceForWebApp webapp in
                  err <- create (ObjService svc) ;;
                  match err with
                  | Some err =>
                      ret ({| ctrl.Requeue := false; ctrl.RequeueAfter := 0 |},
                           Some err)
                  | None =>
                      ret ({| ctrl.Requeue := true; ctrl.RequeueAfter := 0 |}, None)
                  end
                else
                  ret ({| ctrl.Requeue := false; ctrl.RequeueAfter := 0 |}, Some err)
            | Got service =>
                (* STEP 5: Update status *)
                let available :=
                  appsv1.AvailableReplicas (appsv1.Status deployment) in
                now <- Now ;;
                let condition :=
                  {| metav1.cond_Type := "Ready";
                     metav1.cond_Status := metav1.ConditionTrue;
                     metav1.cond_Reason := "DeploymentReady";
                     metav1.cond_Message :=
                       String.append "Deployment has "
                         (String.append (fmt_d available)
                            (String.append "/"
                               (String.append (fmt_d (Replicas (Spec webapp)))
                                  " replicas available")));
                     metav1.cond_LastTransitionTime := now |} in
                let condition :=
                  if negb (available =? Replicas (Spec webapp))%Z then
                    {| metav1.cond_Type := metav1.cond_Type condition;
                       metav1.cond_Status := metav1.ConditionFalse;
                       metav1.cond_Reason := "DeploymentNotReady";
                       metav1.cond_Message := metav1.cond_Message condition;
                       metav1.cond_LastTransitionTime :=
                         metav1.cond_LastTransitionTime condition |}
                  else condition in
                let webapp :=
                  {| ObjectMeta := ObjectMeta webapp;
                     Spec := Spec webapp;
                     Status := {| AvailableReplicas := available;
                                  Conditions := [condition] |} |} in
                err <- status_update (ObjWebApp webapp) ;;
                match err with
                | Some err =>
                    ret ({| ctrl.Requeue := false; ctrl.RequeueAfter := 0 |},
                         Some err)
                | None =>
                    (* Requeue after 30 seconds *)
                    ret ({| ctrl.Requeue := false;
                            ctrl.RequeueAfter := 30 * Second |}, None)
                end
            end
      end
  end.
End Reconciler.

(** ** The cluster behind the client *)

(** An API server holding the three kinds of object under their namespaced
    names.  [faults] is what goes wrong on the way: each store operation
    takes the head of the list and, if it is an error, fails with it and
    changes nothing; when the list is exhausted the store answers as its
    contents dictate. *)
Record Cluster := {
  webapps : gmap types.NamespacedName WebApp;
  deployments : gmap types.NamespacedName appsv1.Deployment;
  services : gmap types.NamespacedName corev1.Service;
  faults : list (option error)
}.

Definition next_fault (c : Cluster) : option error * Cluster :=
  match faults c with
  | [] => (None, c)
  | f :: rest =>
      (f, {| webapps := webapps c; deployments := deployments c;
             services := services c; faults := rest |})
  end.

Definition NotFound : error := errors.StatusError errors.StatusReasonNotFound.
Definition AlreadyExists : error :=
  errors.StatusError errors.StatusReasonAlreadyExists.

Definition lookup_obj {A} (m : gmap types.NamespacedName A)
    (key : types.NamespacedName) : fallible A :=
  match m !! key with
  | Some a => Got a
  | None => Failed NotFound
  end.

Definition cluster_get {A} (sel : Cluster → gmap types.NamespacedName A)
    (key : types.NamespacedName) (c : Cluster) : fallible A * Cluster :=
  let '(f, c) := next_fault c in
  match f with
  | Some err => (Failed err, c)
  | None => (lookup_obj (sel c) key, c)
  end.

Definition set_webapps (m : gmap types.NamespacedName WebApp) (c : Cluster)
  : Cluster :=
  {| webapps := m; deployments := deployments c;
     services := services c; faults := faults c |}.

Definition set_deployments (m : gmap types.NamespacedName appsv1.Deployment)
    (c : Cluster) : Cluster :=
  {| webapps := webapps c; deployments := m;
     services := services c; faults := faults c |}.

Definition set_services (m : gmap types.NamespacedName corev1.Service)
    (c : Cluster) : Cluster :=
  {| webapps := webapps c; deployments := deployments c;
     services := m; faults := faults c |}.

(** Creation stores the object as given under its own name, unless the name
    is taken. *)
Definition store_create (o : Object) (c : Cluster) : option error * Cluster :=
  match o with
  | ObjWebApp w =>
      match webapps c !! webapp_key w with
      | Some _ => (Some AlreadyExists, c)
      | None => (None, set_webapps (<[webapp_key w := w]> (webapps c)) c)
      end
  | ObjDeployment d =>
      let key := meta_key (appsv1.ObjectMeta d) in
      match deployments c !! key with
      | Some _ => (Some AlreadyExists, c)
      | None => (None, set_deployments (<[key := d]> (deployments c)) c)
      end
  | ObjService s =>
      let key := meta_key (corev1.ObjectMeta s) in
      match services c !! key with
      | Some _ => (Some AlreadyExists, c)
      | None => (None, set_services (<[key := s]> (services c)) c)
      end
  end.

(** An update replaces metadata and spec of the stored object and keeps its
    status, which is a subresource of its own. *)
Definition store_update (o : Object) (c : Cluster) : option error * Cluster :=
  match o with
  | ObjWebApp w =>
      match webapps c !! webapp_key w with
      | None => (Some NotFound, c)
      | Some old =>
          (None,
           set_webapps
             (<[webapp_key w := {| ObjectMeta := ObjectMeta w; Spec := Spec w;
                                   Status := Status old |}]> (webapps c)) c)
      end
  | ObjDeployment d =>
      let key := meta_key (appsv1.ObjectMeta d) in
      match deployments c !! key with
      | None => (Some NotFound, c)
      | Some old =>
          (None,
           set_deployments
             (<[key := {| appsv1.ObjectMeta := appsv1.ObjectMeta d;
                          appsv1.Spec := appsv1.Spec d;
                          appsv1.Status := appsv1.Status old |}]>
                (deployments c)) c)
      end
  | ObjService s =>
      let key := meta_key (corev1.ObjectMeta s) in
      match services c !! key with
      | None => (Some NotFound, c)
      | Some _ => (None, set_services (<[key := s]> (services c)) c)
      end
  end.

(** A status update replaces the status of the stored object and nothing
    else. *)
Definition store_status_update (o : Object) (c : Cluster)
  : option error * Cluster :=
  match o with
  | ObjWebApp w =>
      match webapps c !! webapp_key w with
      | None => (Some NotFound, c)
      | Some old =>
          (None,
           set_webapps
             (<[webapp_key w := {| ObjectMeta := ObjectMeta old; Spec := Spec old;
                                   Status := Status w |}]> (webapps c)) c)
      end
  | ObjDeployment d =>
      let key := meta_key (appsv1.ObjectMeta d) in
      match deployments c !! key with
      | None => (Some NotFound, c)
      | Some old =>
          (None,
           set_deployments
             (<[key := {| appsv1.ObjectMeta := appsv1.ObjectMeta old;
                          appsv1.Spec := appsv1.Spec old;
                          appsv1.Status := appsv1.Status d |}]>
                (deployments c)) c)
      end
  | ObjService s =>
      match services c !! meta_key (corev1.ObjectMeta s) with
      | None => (Some NotFound, c)
      | Some _ => (None, c)
      end
  end.

Definition cluster_write (op : Object → Cluster → option error * Cluster)
    (o : Object) (c : Cluster) : option error * Cluster :=
  let '(f, c) := next_fault c in
  match f with
  | Some err => (Some err, c)
  | None => op o c
  end.

#[global] Instance Cluster_Client : Client Cluster := {|
  GetWebApp := cluster_get webapps;
  GetDeployment := cluster_get deployments;
  GetService := cluster_get services;
  Create := cluster_write store_create;
  Update := cluster_write store_update;
  StatusUpdate := cluster_write store_status_update
|}.

(** One reconcile pass against a cluster, at wall-clock time [t], with an
    empty log. *)
Definition pass (req : ctrl.Request) (t : Time) (c : Cluster)
  : Outcome (ctrl.Result * option error) * World Cluster :=
  Reconcile req {| api := c; clock := t; calls := [] |}.

(** The workload controller reporting how many replicas of a Deployment are
    available. *)
Definition report_available (key : types.NamespacedName) (n : int32)
    (c : Cluster) : Cluster :=
  set_deployments
    (alter (λ d, {| appsv1.ObjectMeta := appsv1.ObjectMeta d;
                    appsv1.Spec := appsv1.Spec d;
                    appsv1.Status := {| appsv1.AvailableReplicas := n |} |})
           key (deployments c)) c.

(** Someone deleting a Deployment behind the operator's back. *)
Definition delete_deployment (key : types.NamespacedName) (c : Cluster)
  : Cluster :=
  set_deployments (delete key (deployments c)) c.

(** ** Reading the objects *)

Definition containerPorts (d : appsv1.Deployment) : list int32 :=
  flat_map (λ ct, map corev1.cp_ContainerPort (corev1.c_Ports ct))
    (corev1.Containers (corev1.tpl_Spec (appsv1.Template (appsv1.Spec d)))).

Definition servicePorts (s : corev1.Service) : list int32 :=
  map corev1.sp_Port (corev1.Ports (corev1.Spec s)).

Definition targetPorts (s : corev1.Service) : list intstr.IntOrString :=
  map corev1.sp_TargetPort (corev1.Ports (corev1.Spec s)).

(** The conditions stored on the WebApp named [key]. *)
Definition stored_conditions (c : Cluster) (key : types.NamespacedName)
  : list metav1.Condition :=
  match webapps c !! key with
  | Some w => Conditions (Status w)
  | None => []
  end.

(** A converged cluster: the WebApp is stored under its name, so is a
    Deployment with the replica count of the spec, and so is a Service. *)
Definition converged (c : Cluster) (webapp : WebApp) : Prop :=
  webapps c !! webapp_key webapp = Some webapp ∧
  (∃ d, deployments c !! webapp_key webapp = Some d ∧
        appsv1.Replicas (appsv1.Spec d) = Some (Replicas (Spec webapp))) ∧
  (∃ s, services c !! webapp_key webapp = Some s).

(** ** The scenario of the example manifest *)

(** [examples/nginx-webapp.yaml], with [replicas] replicas and the status
    the operator has written so far. *)
Definition nginx (replicas : int32) (status : WebAppStatus) : WebApp :=
  {| ObjectMeta := {| metav1.Name := "nginx-app"; metav1.Namespace := "default";
                      metav1.UID := "uid-1"; metav1.Labels := ∅;
                      metav1.OwnerReferences := [] |};
     Spec := {| Image := "nginx:1.25"; Replicas := replicas; Port := 80;
                Env := [] |};
     Status := status |}.

Definition nginx_app : WebApp :=
  nginx 3 {| AvailableReplicas := 0; Conditions := [] |}.

Definition nginx_key : types.NamespacedName :=
  {| types.Namespace := "default"; types.Name := "nginx-app" |}.

Definition nginx_req : ctrl.Request := {| ctrl.NamespacedName := nginx_key |}.

(** Only the WebApp has been applied. *)
Definition cluster0 : Cluster :=
  {| webapps := {[ nginx_key := nginx_app ]};
     deployments := ∅; services := ∅; faults := [] |}.

(** The Deployment of [nginx_app] as the cluster holds it, with the replica
    count [replicas] and [available] replicas running. *)
Definition nginx_deployment (replicas : option int32) (available : int32)
  : appsv1.Deployment :=
  let d := deploymentForWebApp nginx_app in
  {| appsv1.ObjectMeta := appsv1.ObjectMeta d;
     appsv1.Spec :=
       {| appsv1.Replicas := replicas;
          appsv1.Selector := appsv1.Selector (appsv1.Spec d);
          appsv1.Template := appsv1.Template (appsv1.Spec d) |};
     appsv1.Status := {| appsv1.AvailableReplicas := available |} |}.

(** The WebApp after a pass at time 100 that found all three replicas. *)
Definition nginx_ready : WebApp :=
  nginx 3
    {| AvailableReplicas := 3;
       Conditions :=
         [ {| metav1.cond_Type := "Ready";
              metav1.cond_Status := metav1.ConditionTrue;
              metav1.cond_Reason := "DeploymentReady";
              metav1.cond_Message := "Deployment has 3/3 replicas available";
              metav1.cond_LastTransitionTime := 100 |} ] |}.

Definition converged_cluster : Cluster :=
  {| webapps := {[ nginx_key := nginx_ready ]};
     deployments := {[ nginx_key := nginx_deployment (Some 3) 3 ]};
     services := {[ nginx_key := serviceForWebApp nginx_app ]};
     faults := [] |}.

(** The WebApp has been edited to five replicas; the Deployment still has
    three. *)
Definition scaled_up_cluster : Cluster :=
  {| webapps := {[ nginx_key := nginx 5 (Status nginx_ready) ]};
     deployments := {[ nginx_key := nginx_deployment (Some 3) 3 ]};
     services := {[ nginx_key := serviceForWebApp nginx_app ]};
     faults := [] |}.

(** A Deployment of the same name that someone else created, without a
    replica count. *)
Definition foreign_cluster : Cluster :=
  {| webapps := {[ nginx_key := nginx_app ]};
     deployments := {[ nginx_key := nginx_deployment None 1 ]};
     services := ∅; faults := [] |}.

(** The third store operation times out. *)
Definition timeout_error : error := errors.OtherError "context deadline exceeded".

Definition faulty_cluster : Cluster :=
  {| webapps := {[ nginx_key := nginx_app ]};
     deployments := ∅; services := ∅;
     faults := [None; None; Some timeout_error] |}.

(** A WebApp that leaves the port to the operator. *)
Definition portless_app : WebApp :=
  {| ObjectMeta := ObjectMeta nginx_app;
     Spec := {| Image := "nginx:1.25"; Replicas := 2; Port := 0; Env := [] |};
     Status := Status nginx_app |}.

(** ** The paths of one pass, against any client *)

Section Paths.
Context {St : Type} `{Client St}.
Implicit Types (req : ctrl.Request) (w : World St) (webapp : WebApp).
Implicit Types (deployment : appsv1.Deployment) (service : corev1.Service).

(** The Deployment as STEP 3 sends it back: the fetched one with the
    replica count of the spec. *)
Definition scaled webapp deployment : appsv1.Deployment :=
  {| appsv1.ObjectMeta := appsv1.ObjectMeta deployment;
     appsv1.Spec :=
       {| appsv1.Replicas := Some (Replicas (Spec webapp));
          appsv1.Selector := appsv1.Selector (appsv1.Spec deployment);
          appsv1.Template := appsv1.Template (appsv1.Spec deployment) |};
     appsv1.Status := appsv1.Status deployment |}.

(** The readiness condition of STEP 5, for [available] replicas out of
    [desired], stamped [now]. *)
Definition readiness (available desired : int32) (now : Time)
  : metav1.Condition :=
  {| metav1.cond_Type := "Ready";
     metav1.cond_Status :=
       if (available =? desired)%Z then metav1.ConditionTrue
       else metav1.ConditionFalse;
     metav1.cond_Reason :=
       if (available =? desired)%Z then "DeploymentReady"
       else "DeploymentNotReady";
     metav1.cond_Message :=
       String.append "Deployment has "
         (String.append (fmt_d available)
            (String.append "/"
               (String.append (fmt_d desired) " replicas available")));
     metav1.cond_LastTransitionTime := now |}.

(** The WebApp as STEP 5 sends it to the status endpoint. *)
Definition observed webapp deployment (now : Time) : WebApp :=
  {| ObjectMeta := ObjectMeta webapp;
     Spec := Spec webapp;
     Status :=
       {| AvailableReplicas :=
            appsv1.AvailableReplicas (appsv1.Status deployment);
          Conditions :=
            [ readiness (appsv1.AvailableReplicas (appsv1.Status deployment))
                (Replicas (Spec webapp)) now ] |} |}.

(** What a pass returns after its one write: the error of the write, or
    the directive [r]. *)
Definition after_write (e : option error) (r : ctrl.Result)
  : Outcome (ctrl.Result * option error) :=
  match e with
  | Some err => Done ({| ctrl.Requeue := false; ctrl.RequeueAfter := 0 |}, Some err)
  | None => Done (r, None)
  end.

(** The eight ways through [Reconcile], each with the answers of the store
    that lead there, the outcome, and the world the pass leaves. *)
Inductive reconciles req w
  : Outcome (ctrl.Result * option error) → World St → Prop :=
| R_no_webapp err st1 :
    GetWebApp (ctrl.NamespacedName req) (api w) = (Failed err, st1) →
    reconciles req w
      (Done ({| ctrl.Requeue := false; ctrl.RequeueAfter := 0 |},
             if errors.IsNotFound err then None else Some err))
      (log w st1 (CallGet KWebApp (ctrl.NamespacedName req)) (Some err))
| R_create_deployment webapp err e st1 st2 st3 :
    GetWebApp (ctrl.NamespacedName req) (api w) = (Got webapp, st1) →
    GetDeployment (webapp_key webapp) st1 = (Failed err, st2) →
    errors.IsNotFound err = true →
    Create (ObjDeployment (deploymentForWebApp webapp)) st2 = (e, st3) →
    reconciles req w
      (after_write e {| ctrl.Requeue := true; ctrl.RequeueAfter := 0 |})
      (log (log (log w st1 (CallGet KWebApp (ctrl.NamespacedName req)) None)
              st2 (CallGet KDeployment (webapp_key webapp)) (Some err))
         st3 (CallCreate (ObjDeployment (deploymentForWebApp webapp))) e)
| R_get_deployment_failed webapp err st1 st2 :
    GetWebApp (ctrl.NamespacedName req) (api w) = (Got webapp, st1) →
    GetDeployment (webapp_key webapp) st1 = (Failed err, st2) →
    errors.IsNotFound err = false →
    reconciles req w
      (Done ({| ctrl.Requeue := false; ctrl.RequeueAfter := 0 |}, Some err))
      (log (log w st1 (CallGet KWebApp (ctrl.NamespacedName req)) None)
         st2 (CallGet KDeployment (webapp_key webapp)) (Some err))
| R_nil_replicas webapp deployment st1 st2 :
    GetWebApp (ctrl.NamespacedName req) (api w) = (Got webapp, st1) →
    GetDeployment (webapp_key webapp) st1 = (Got deployment, st2) →
    appsv1.Replicas (appsv1.Spec deployment) = None →
    reconciles req w Panic
      (log (log w st1 (CallGet KWebApp (ctrl.NamespacedName req)) None)
         st2 (CallGet KDeployment (webapp_key webapp)) None)
| R_update_replicas webapp deployment n e st1 st2 st3 :
    GetWebApp (ctrl.NamespacedName req) (api w) = (Got webapp, st1) →
    GetDeployment (webapp_key webapp) st1 = (Got deployment, st2) →
    appsv1.Replicas (appsv1.Spec deployment) = Some n →
    n ≠ Replicas (Spec webapp) →
    Update (ObjDeployment (scaled webapp deployment)) st2 = (e, st3) →
    reconciles req w
      (after_write e {| ctrl.Requeue := true; ctrl.RequeueAfter := 0 |})
      (log (log (log w st1 (CallGet KWebApp (ctrl.NamespacedName req)) None)
              st2 (CallGet KDeployment (webapp_key webapp)) None)
         st3 (CallUpdate (ObjDeployment (scaled webapp deployment))) e)
| R_create_service webapp deployment err e st1 st2 st3 st4 :
    GetWebApp (ctrl.NamespacedName req) (api w) = (Got webapp, st1) →
    GetDeployment (webapp_key webapp) st1 = (Got deployment, st2) →
    appsv1.Replicas (appsv1.Spec deployment) = Some (Replicas (Spec webapp)) →
    GetService (webapp_key webapp) st2 = (Failed err, st3) →
    errors.IsNotFound err = true →
    Create (ObjService (serviceForWebApp webapp)) st3 = (e, st4) →
    reconciles req w
      (after_write e {| ctrl.Requeue := true; ctrl.RequeueAfter := 0 |})
      (log (log (log (log w st1 (CallGet KWebApp (ctrl.NamespacedName req)) None)
                   st2 (CallGet KDeployment (webapp_key webapp)) None)
              st3 (CallGet KService (webapp_key webapp)) (Some err))
         st4 (CallCreate (ObjService (serviceForWebApp webapp))) e)
| R_get_service_failed webapp deployment err st1 st2 st3 :
    GetWebApp (ctrl.NamespacedName req) (api w) = (Got webapp, st1) →
    GetDeployment (webapp_key webapp) st1 = (Got deployment, st2) →
    appsv1.Replicas (appsv1.Spec deployment) = Some (Replicas (Spec webapp)) →
    GetService (webapp_key webapp) st2 = (Failed err, st3) →
    errors.IsNotFound err = false →
    reconciles req w
      (Done ({| ctrl.Requeue := false; ctrl.RequeueAfter := 0 |}, Some err))
      (log (log (log w st1 (CallGet KWebApp (ctrl.NamespacedName req)) None)
              st2 (CallGet KDeployment (webapp_key webapp)) None)
         st3 (CallGet KService (webapp_key webapp)) (Some err))
| R_update_status webapp deployment service e st1 st2 st3 st4 :
    GetWebApp (ctrl.NamespacedName req) (api w) = (Got webapp, st1) →
    GetDeployment (webapp_key webapp) st1 = (Got deployment, st2) →
    appsv1.Replicas (appsv1.Spec deployment) = Some (Replicas (Spec webapp)) →
    GetService (webapp_key webapp) st2 = (Got service, st3) →
    StatusUpdate (ObjWebApp (observed webapp deployment (clock w))) st3
      = (e, st4) →
    reconciles req w
      (after_write e {| ctrl.Requeue := false;
                        ctrl.RequeueAfter := 30 * Second |})
      (log (log (log (log w st1 (CallGet KWebApp (ctrl.NamespacedName req)) None)
                   st2 (CallGet KDeployment (webapp_key webapp)) None)
              st3 (CallGet KService (webapp_key webapp)) None)
         st4 (CallStatusUpdate
                (ObjWebApp (observed webapp deployment (clock w)))) e).
End Paths.

(** The error with which a store operation fails the pass.  A read that
    finds nothing does not: the reconciler branches on it. *)
Definition failure (ev : Event) : option error :=
  match ev_call ev, ev_err ev with
  | CallGet _ _, Some err => if errors.IsNotFound err then None else Some err
  | _, e => e
  end.

(** Two clusters holding the same objects. *)
Definition same_objects (c c' : Cluster) : Prop :=
  webapps c = webapps c' ∧ deployments c = deployments c' ∧
  services c = services c'.

(** ** More ways of reading the objects and the log *)

(** The environment of each container of a Deployment. *)
Definition containerEnvs (d : appsv1.Deployment)
  : list (list corev1.EnvVar) :=
  map corev1.c_Env
    (corev1.Containers (corev1.tpl_Spec (appsv1.Template (appsv1.Spec d)))).

(** The labels a Deployment puts on its pods. *)
Definition podLabels (d : appsv1.Deployment) : gmap string string :=
  metav1.Labels (corev1.tpl_ObjectMeta (appsv1.Template (appsv1.Spec d))).


(** The writes by which a pass corrects a dependent, and the one by which
    it reports. *)
Definition is_dependent_write (c : Call) : bool :=
  match c with
  | CallCreate (ObjDeployment _) | CallCreate (ObjService _)
  | CallUpdate (ObjDeployment _) => true
  | _ => false
  end.

Definition is_status_write (c : Call) : bool :=
  match c with
  | CallStatusUpdate (ObjWebApp _) => true
  | _ => false
  end.

(** The manifest with an older image, and a cluster whose Deployment still
    runs it although the WebApp has moved on. *)
Definition old_nginx_app : WebApp :=
  {| ObjectMeta := ObjectMeta nginx_app;
     Spec := {| Image := "nginx:1.19"; Replicas := 3; Port := 80; Env := [] |};
     Status := Status nginx_app |}.

Definition stale_cluster : Cluster :=
  {| webapps := {[ nginx_key := nginx_ready ]};
     deployments := {[ nginx_key := deploymentForWebApp old_nginx_app ]};
     services := {[ nginx_key := serviceForWebApp nginx_app ]};
     faults := [] |}.

(** The images a Deployment runs. *)
Definition containerImages (d : appsv1.Deployment) : list string :=
  map corev1.c_Image
    (corev1.Containers (corev1.tpl_Spec (appsv1.Template (appsv1.Spec d)))).

(** How many dependents of the WebApp named [key], wanting [replicas]
    replicas, the cluster has yet to get right: a Deployment that is missing
    or has another replica count, a Service that is missing. *)
Definition pending (c : Cluster) (key : types.NamespacedName)
    (replicas : int32) : nat :=
  (match deployments c !! key with
   | Some d =>
       if decide (appsv1.Replicas (appsv1.Spec d) = Some replicas)
       then 0 else 1
   | None => 1
   end +
   match services c !! key with
   | Some _ => 0
   | None => 1
   end)%nat.

(** A cluster in which passes on [webapp] go through: no fault is pending,
    the WebApp is stored under its name with the metadata and spec of
    [webapp], and its Deployment, if there is one, carries its own name and
    a replica count. *)
Definition reconcilable (c : Cluster) (webapp : WebApp) : Prop :=
  faults c = [] ∧
  (∃ w, webapps c !! webapp_key webapp = Some w ∧
        ObjectMeta w = ObjectMeta webapp ∧ Spec w = Spec webapp) ∧
  (∀ d, deployments c !! webapp_key webapp = Some d →
        meta_key (appsv1.ObjectMeta d) = webapp_key webapp ∧
        is_Some (appsv1.Replicas (appsv1.Spec d))).

(** ** The copy methods, on Go's memory *)

(** [DeepCopyInto] and its callers copy struct values and slice headers, so
    they are modelled on a heap: structs live in cells, slices are headers
    on backing arrays, and what a copy shares with its original is
    visible. *)

Definition loc : Type := positive.

(** A slice header: nil, or a window of [len] elements, [cap] at most,
    starting at [off] in a backing array. *)
Inductive slice :=
| SNil
| SArr (array : loc) (off len cap : nat).

Definition slice_len (s : slice) : nat :=
  match s with
  | SNil => 0
  | SArr _ _ len _ => len
  end.

Record TypeMeta := {
  tm_Kind : string;
  tm_APIVersion : string
}.

Record ListMeta := {
  ResourceVersion : string;
  Continue : string;
  RemainingItemCount : option Z
}.

(** [WebApp] as it lies in memory: [Env] and [Conditions] are slice
    headers.  [TypeMeta], [ObjectMeta] and [ListMeta] are kept as values:
    the library's [DeepCopyInto] for them, called on a target other than
    its source, leaves the target with a copy that shares nothing. *)
Record WebAppSpecCell := {
  m_Image : string;
  m_Replicas : int32;
  m_Port : int32;
  m_Env : slice
}.

Record WebAppStatusCell := {
  m_AvailableReplicas : int32;
  m_Conditions : slice
}.

Record WebAppCell := {
  m_TypeMeta : TypeMeta;
  m_ObjectMeta : metav1.ObjectMeta;
  m_Spec : WebAppSpecCell;
  m_Status : WebAppStatusCell
}.

Record WebAppListCell := {
  l_TypeMeta : TypeMeta;
  l_ListMeta : ListMeta;
  l_Items : slice
}.

Record Heap := {
  env_arrays : gmap loc (list EnvVar);
  cond_arrays : gmap loc (list metav1.Condition);
  webapp_arrays : gmap loc (list WebAppCell);
  webapp_cells : gmap loc WebAppCell;
  list_cells : gmap loc WebAppListCell
}.

(** [*WebApp]: nil, a struct of its own, or an element of a [[]WebApp]. *)
Inductive WebAppPtr :=
| WNil
| WCell (l : loc)
| WElem (a : loc) (i : nat).

(** [*WebAppList]. *)
Inductive WebAppListPtr :=
| LNil
| LCell (l : loc).

(** [runtime.Object]: the nil interface, or a pointer with its type. *)
Inductive RuntimeObject :=
| NilObject
| WebAppObject (p : WebAppPtr)
| WebAppListObject (p : WebAppListPtr).

Definition zero_TypeMeta : TypeMeta := {| tm_Kind := ""; tm_APIVersion := "" |}.

Definition zero_ObjectMeta : metav1.ObjectMeta :=
  {| metav1.Name := ""; metav1.Namespace := ""; metav1.UID := "";
     metav1.Labels := ∅; metav1.OwnerReferences := [] |}.

Definition zero_WebApp : WebAppCell :=
  {| m_TypeMeta := zero_TypeMeta;
     m_ObjectMeta := zero_ObjectMeta;
     m_Spec := {| m_Image := ""; m_Replicas := 0; m_Port := 0; m_Env := SNil |};
     m_Status := {| m_AvailableReplicas := 0; m_Conditions := SNil |} |}.

Definition zero_WebAppList : WebAppListCell :=
  {| l_TypeMeta := zero_TypeMeta;
     l_ListMeta := {| ResourceVersion := ""; Continue := "";
                      RemainingItemCount := None |};
     l_Items := SNil |}.

Definition load_webapp (p : WebAppPtr) (h : Heap) : option WebAppCell :=
  match p with
  | WNil => None
  | WCell l => webapp_cells h !! l
  | WElem a i =>
      match webapp_arrays h !! a with
      | Some arr => arr !! i
      | None => None
      end
  end.

Definition set_webapp_cells (m : gmap loc WebAppCell) (h : Heap) : Heap :=
  {| env_arrays := env_arrays h; cond_arrays := cond_arrays h;
     webapp_arrays := webapp_arrays h; webapp_cells := m;
     list_cells := list_cells h |}.

Definition set_webapp_arrays (m : gmap loc (list WebAppCell)) (h : Heap)
  : Heap :=
  {| env_arrays := env_arrays h; cond_arrays := cond_arrays h;
     webapp_arrays := m; webapp_cells := webapp_cells h;
     list_cells := list_cells h |}.

Definition set_list_cells (m : gmap loc WebAppListCell) (h : Heap) : Heap :=
  {| env_arrays := env_arrays h; cond_arrays := cond_arrays h;
     webapp_arrays := webapp_arrays h; webapp_cells := webapp_cells h;
     list_cells := m |}.

Definition set_env_arrays (m : gmap loc (list EnvVar)) (h : Heap) : Heap :=
  {| env_arrays := m; cond_arrays := cond_arrays h;
     webapp_arrays := webapp_arrays h; webapp_cells := webapp_cells h;
     list_cells := list_cells h |}.

Definition store_webapp (p : WebAppPtr) (v : WebAppCell) (h : Heap)
  : option Heap :=
  match p with
  | WNil => None
  | WCell l =>
      match webapp_cells h !! l with
      | Some _ => Some (set_webapp_cells (<[l := v]> (webapp_cells h)) h)
      | None => None
      end
  | WElem a i =>
      match webapp_arrays h !! a with
      | Some arr =>
          if decide (i < length arr)%nat
          then Some (set_webapp_arrays (<[a := <[i := v]> arr]> (webapp_arrays h)) h)
          else None
      | None => None
      end
  end.

(** Go code on the heap: it returns a value and a heap, or panics. *)
Definition Mem (A : Type) : Type := Heap → Outcome (A * Heap).

Definition mem_ret {A} (a : A) : Mem A := λ h, Done (a, h).

Definition mem_bind {A B} (m : Mem A) (k : A → Mem B) : Mem B :=
  λ h, match m h with
       | Done (a, h') => k a h'
       | Panic => Panic
       end.

Notation "x <~ m ;; k" := (mem_bind m (λ x, k))
  (at level 100, m at next level, right associativity).

(** [*p] as a value. *)
Definition load (p : WebAppPtr) : Mem WebAppCell :=
  λ h, match load_webapp p h with
       | Some v => Done (v, h)
       | None => Panic
       end.

(** [*p = v]. *)
Definition store (p : WebAppPtr) (v : WebAppCell) : Mem unit :=
  λ h, match store_webapp p v h with
       | Some h' => Done (tt, h')
       | None => Panic
       end.

Definition load_list (p : WebAppListPtr) : Mem WebAppListCell :=
  λ h, match p with
       | LNil => Panic
       | LCell l =>
           match list_cells h !! l with
           | Some v => Done (v, h)
           | None => Panic
           end
       end.

Definition store_list (p : WebAppListPtr) (v : WebAppListCell) : Mem unit :=
  λ h, match p with
       | LNil => Panic
       | LCell l =>
           match list_cells h !! l with
           | Some _ => Done (tt, set_list_cells (<[l := v]> (list_cells h)) h)
           | None => Panic
           end
       end.

(** [new(WebApp)] and [new(WebAppList)]: a zeroed struct at an address not
    in use. *)
Definition new_WebApp : Mem WebAppPtr :=
  λ h, let l := fresh (dom (webapp_cells h)) in
       Done (WCell l, set_webapp_cells (<[l := zero_WebApp]> (webapp_cells h)) h).

Definition new_WebAppList : Mem WebAppListPtr :=
  λ h, let l := fresh (dom (list_cells h)) in
       Done (LCell l,
             set_list_cells (<[l := zero_WebAppList]> (list_cells h)) h).

(** [make([]WebApp, n)]: a header on a new array of [n] zeroed structs. *)
Definition make_WebApps (n : nat) : Mem slice :=
  λ h, let a := fresh (dom (webapp_arrays h)) in
       Done (SArr a 0 n n,
             set_webapp_arrays
               (<[a := replicate n zero_WebApp]> (webapp_arrays h)) h).

(** [&s[i]]: indexing past the length panics. *)
Definition index (s : slice) (i : nat) : Mem WebAppPtr :=
  λ h, match s with
       | SNil => Panic
       | SArr a off len _ =>
           if decide (i < len)%nat then Done (WElem a (off + i)%nat, h)
           else Panic
       end.

(** [WebApp.DeepCopyInto], statement by statement. *)
Definition WebApp_DeepCopyInto (w out : WebAppPtr) : Mem unit :=
  (* *out = *w *)
  v <~ load w ;;
  _ <~ store out v ;;
  (* out.TypeMeta = w.TypeMeta *)
  v <~ load w ;;
  o <~ load out ;;
  _ <~ store out {| m_TypeMeta := m_TypeMeta v; m_ObjectMeta := m_ObjectMeta o;
                    m_Spec := m_Spec o; m_Status := m_Status o |} ;;
  (* w.ObjectMeta.DeepCopyInto(&out.ObjectMeta) *)
  v <~ load w ;;
  o <~ load out ;;
  _ <~ store out {| m_TypeMeta := m_TypeMeta o; m_ObjectMeta := m_ObjectMeta v;
                    m_Spec := m_Spec o; m_Status := m_Status o |} ;;
  (* out.Spec = w.Spec *)
  v <~ load w ;;
  o <~ load out ;;
  _ <~ store out {| m_TypeMeta := m_TypeMeta o; m_ObjectMeta := m_ObjectMeta o;
                    m_Spec := m_Spec v; m_Status := m_Status o |} ;;
  (* out.Status = w.Status *)
  v <~ load w ;;
  o <~ load out ;;
  store out {| m_TypeMeta := m_TypeMeta o; m_ObjectMeta := m_ObjectMeta o;
               m_Spec := m_Spec o; m_Status := m_Status v |}.

(** [WebApp.DeepCopy]. *)
Definition WebApp_DeepCopy (w : WebAppPtr) : Mem WebAppPtr :=
  match w with
  | WNil => mem_ret WNil
  | _ =>
      out <~ new_WebApp ;;
      _ <~ WebApp_DeepCopyInto w out ;;
      mem_ret out
  end.

(** [WebApp.DeepCopyObject]: the pointer goes into the interface as it
    is. *)
Definition WebApp_DeepCopyObject (w : WebAppPtr) : Mem RuntimeObject :=
  p <~ WebApp_DeepCopy w ;;
  mem_ret (WebAppObject p).

(** The loop of [WebAppList.DeepCopyInto], from index [i] for [n] more
    elements. *)
Fixpoint copy_items (w out : WebAppListPtr) (i n : nat) : Mem unit :=
  match n with
  | O => mem_ret tt
  | S n' =>
      v <~ load_list w ;;
      src <~ index (l_Items v) i ;;
      o <~ load_list out ;;
      dst <~ index (l_Items o) i ;;
      _ <~ WebApp_DeepCopyInto src dst ;;
      copy_items w out (S i) n'
  end.

(** [WebAppList.DeepCopyInto]. *)
Definition WebAppList_DeepCopyInto (w out : WebAppListPtr) : Mem unit :=
  (* *out = *w *)
  v <~ load_list w ;;
  _ <~ store_list out v ;;
  (* out.TypeMeta = w.TypeMeta *)
  v <~ load_list w ;;
  o <~ load_list out ;;
  _ <~ store_list out {| l_TypeMeta := l_TypeMeta v; l_ListMeta := l_ListMeta o;
                         l_Items := l_Items o |} ;;
  (* w.ListMeta.DeepCopyInto(&out.ListMeta) *)
  v <~ load_list w ;;
  o <~ load_list out ;;
  _ <~ store_list out {| l_TypeMeta := l_TypeMeta o; l_ListMeta := l_ListMeta v;
                         l_Items := l_Items o |} ;;
  v <~ load_list w ;;
  match l_Items v with
  | SNil => mem_ret tt
  | SArr _ _ len _ =>
      (* out.Items = make([]WebApp, len(w.Items)) *)
      items <~ make_WebApps len ;;
      o <~ load_list out ;;
      _ <~ store_list out {| l_TypeMeta := l_TypeMeta o;
                             l_ListMeta := l_ListMeta o;
                             l_Items := items |} ;;
      (* for i := range w.Items *)
      v <~ load_list w ;;
      copy_items w out 0 (slice_len (l_Items v))
  end.

(** [WebAppList.DeepCopy]. *)
Definition WebAppList_DeepCopy (w : WebAppListPtr) : Mem WebAppListPtr :=
  match w with
  | LNil => mem_ret LNil
  | _ =>
      out <~ new_WebAppList ;;
      _ <~ WebAppList_DeepCopyInto w out ;;
      mem_ret out
  end.

(** [WebAppList.DeepCopyObject]. *)
Definition WebAppList_DeepCopyObject (w : WebAppListPtr) : Mem RuntimeObject :=
  p <~ WebAppList_DeepCopy w ;;
  mem_ret (WebAppListObject p).

(** Reading a slice: the elements its window shows. *)
Definition read_slice {A} (arrays : gmap loc (list A)) (s : slice)
  : option (list A) :=
  match s with
  | SNil => Some []
  | SArr a off len _ =>
      match arrays !! a with
      | Some arr =>
          if decide (off + len ≤ length arr)%nat
          then Some (take len (drop off arr))
          else None
      | None => None
      end
  end.

(** The WebApp a cell holds, as the value the reconciler works with. *)
Definition read_cell (h : Heap) (v : WebAppCell) : option WebApp :=
  match read_slice (env_arrays h) (m_Env (m_Spec v)),
        read_slice (cond_arrays h) (m_Conditions (m_Status v)) with
  | Some env, Some conds =>
      Some {| ObjectMeta := m_ObjectMeta v;
              Spec := {| Image := m_Image (m_Spec v);
                         Replicas := m_Replicas (m_Spec v);
                         Port := m_Port (m_Spec v);
                         Env := env |};
              Status := {| AvailableReplicas := m_AvailableReplicas (m_Status v);
                           Conditions := conds |} |}
  | _, _ => None
  end.

(** The WebApp a pointer points to. *)
Definition read_webapp (h : Heap) (p : WebAppPtr) : option WebApp :=
  match load_webapp p h with
  | Some v => read_cell h v
  | None => None
  end.

(** The WebApps of a list. *)
Definition read_items (h : Heap) (p : WebAppListPtr)
  : option (list (option WebApp)) :=
  match p with
  | LNil => None
  | LCell l =>
      match list_cells h !! l with
      | Some v => fmap (map (read_cell h))
                    (read_slice (webapp_arrays h) (l_Items v))
      | None => None
      end
  end.

(** The assignment [p.Spec.Env[i] = e] of a caller. *)
Definition assign_env (p : WebAppPtr) (i : nat) (e : EnvVar) : Mem unit :=
  v <~ load p ;;
  λ h, match m_Env (m_Spec v) with
       | SNil => Panic
       | SArr a off len _ =>
           match env_arrays h !! a with
           | Some arr =>
               if decide (i < len ∧ off + i < length arr)%nat
               then Done (tt, set_env_arrays
                                (<[a := <[(off + i)%nat := e]> arr]>
                                   (env_arrays h)) h)
               else Panic
           | None => Panic
           end
       end.

(** A heap with one WebApp that has two environment entries. *)
Definition app_cell : WebAppCell :=
  {| m_TypeMeta := {| tm_Kind := "WebApp"; tm_APIVersion := "example.com/v1" |};
     m_ObjectMeta := ObjectMeta nginx_app;
     m_Spec := {| m_Image := "nginx:1.25"; m_Replicas := 3; m_Port := 80;
                  m_Env := SArr 1%positive 0 2 2 |};
     m_Status := {| m_AvailableReplicas := 0; m_Conditions := SNil |} |}.

Definition app_heap : Heap :=
  {| env_arrays :=
       {[ 1%positive := [ {| env_Name := "MODE"; env_Value := "prod" |};
                          {| env_Name := "LEVEL"; env_Value := "info" |} ] ]};
     cond_arrays := ∅;
     webapp_arrays := {[ 1%positive := [ app_cell ] ]};
     webapp_cells := {[ 1%positive := app_cell ]};
     list_cells :=
       {[ 1%positive := {| l_TypeMeta := {| tm_Kind := "WebAppList";
                                           tm_APIVersion := "example.com/v1" |};
                           l_ListMeta := {| ResourceVersion := "7";
                                            Continue := "";
                                            RemainingItemCount := None |};
                           l_Items := SArr 1%positive 0 1 1 |} ]} |}.

(** * Properties *)

Section PathsCorrect.
Context {St : Type} `{Client St}.
Implicit Types (req : ctrl.Request) (w : World St) (webapp : WebApp).
Implicit Types (deployment : appsv1.Deployment) (service : corev1.Service).

Ltac sim := cbn [api clock calls log fallible_err negb].

Ltac run :=
  unfold webapp_key, scaled, observed, readiness, after_write in *;
  unfold Reconcile, bind, get_webapp, get_deployment, get_service, create,
    update, status_update, Now, deref, ret;
  sim;
  repeat (match goal with
          | E : ?l = _ |- context [ ?l ] => rewrite E
          end; sim).

(** Each path is what [Reconcile] computes... *)
Lemma reconciles_sound req w out w' :
  reconciles req w out w' → Reconcile req w = (out, w').
Proof.
  destruct 1 as [err st1 E1
                |webapp err e st1 st2 st3 E1 E2 NF E3
                |webapp err st1 st2 E1 E2 NF
                |webapp deployment st1 st2 E1 E2 R
                |webapp deployment n e st1 st2 st3 E1 E2 R Hn E3
                |webapp deployment err e st1 st2 st3 st4 E1 E2 R E3 NF E4
                |webapp deployment err st1 st2 st3 E1 E2 R E3 NF
                |webapp deployment service e st1 st2 st3 st4 E1 E2 R E3 E4];
    try pose proof (Z.eqb_refl (Replicas (Spec webapp))).
  - run. by destruct (errors.IsNotFound err).
  - run. by destruct e.
  - by run.
  - by run.
  - apply Z.eqb_neq in Hn. run. by destruct e.
  - run. by destruct e.
  - by run.
  - unfold observed, readiness in E4.
    destruct (_ =? Replicas (Spec webapp))%Z eqn:Eq in E4;
      run; cbn [metav1.cond_Type metav1.cond_Message
                metav1.cond_LastTransitionTime]; run; by destruct e.
Qed.

(** ...and [Reconcile] always takes one of them. *)
Lemma reconciles_complete req w out w' :
  Reconcile req w = (out, w') → reconciles req w out w'.
Proof.
  intros E.
  assert (reconciles req w (Reconcile req w).1 (Reconcile req w).2) as Hr;
    [|by rewrite E in Hr].
  clear E.
  assert (∀ o v, reconciles req w o v →
                 reconciles req w (Reconcile req w).1 (Reconcile req w).2)
    as by_path.
  { intros o v Hp. by rewrite (reconciles_sound _ _ _ _ Hp). }
  destruct (GetWebApp (ctrl.NamespacedName req) (api w))
    as [[webapp|err] st1] eqn:E1; [|by eauto using reconciles].
  destruct (GetDeployment (webapp_key webapp) st1)
    as [[deployment|err] st2] eqn:E2.
  - destruct (appsv1.Replicas (appsv1.Spec deployment)) as [n|] eqn:R;
      [|by eauto using reconciles].
    destruct (decide (n = Replicas (Spec webapp))) as [->|Hn].
    + destruct (GetService (webapp_key webapp) st2)
        as [[service|err] st3] eqn:E3.
      * destruct (StatusUpdate
                    (ObjWebApp (observed webapp deployment (clock w))) st3)
          as [e st4] eqn:E4.
        by eauto using reconciles.
      * destruct (errors.IsNotFound err) eqn:NF; [|by eauto using reconciles].
        destruct (Create (ObjService (serviceForWebApp webapp)) st3)
          as [e st4] eqn:E4.
        by eauto using reconciles.
    + destruct (Update (ObjDeployment (scaled webapp deployment)) st2)
        as [e st3] eqn:E3.
      by eauto using reconciles.
  - destruct (errors.IsNotFound err) eqn:NF; [|by eauto using reconciles].
    destruct (Create (ObjDeployment (deploymentForWebApp webapp)) st2)
      as [e st3] eqn:E3.
    by eauto using reconciles.
Qed.
End PathsCorrect.

(** ** A failing store operation ends the pass *)

Section Abort.
Context {St : Type} `{Client St}.

Lemma failure_get_not_found k key err :
  errors.IsNotFound err = true →
  failure {| ev_call := CallGet k key; ev_err := Some err |} = None.
Proof. unfold failure; cbn. by intros ->. Qed.

Lemma failure_ok c : failure {| ev_call := c; ev_err := None |} = None.
Proof. by destruct c. Qed.

(** Whatever the client answers: an operation that fails is the last one
    of the pass, and its error is what the pass returns. *)
Lemma reconciles_abort (req : ctrl.Request) (w : World St) out w' :
  reconciles req w out w' →
  calls w = [] →
  ∀ pre ev post err,
    calls w' = pre ++ ev :: post →
    failure ev = Some err →
    post = [] ∧
    out = Done ({| ctrl.Requeue := false; ctrl.RequeueAfter := 0 |}, Some err).
Proof.
  intros Hr Hnil pre ev post e Hc Hf.
  destruct Hr; cbn [calls log] in Hc; rewrite Hnil in Hc; cbn [app] in Hc;
    destruct pre as [|? [|? [|? [|? [|? ?]]]]]; simplify_eq/=;
    repeat match goal with
           | NF : errors.IsNotFound _ = true, F : failure _ = Some _ |- _ =>
               rewrite (failure_get_not_found _ _ _ NF) in F
           | F : failure {| ev_call := _; ev_err := None |} = Some _ |- _ =>
               by rewrite failure_ok in F
           end;
    try done.
  all: unfold failure in Hf; cbn in Hf; simplify_eq/=.
  all: try done.
  all: destruct (errors.IsNotFound _); by simplify_eq.
Qed.
End Abort.

(** ** The cluster's answers *)

Lemma same_objects_refl c : same_objects c c.
Proof. by repeat split. Qed.

Lemma same_objects_trans c1 c2 c3 :
  same_objects c1 c2 → same_objects c2 c3 → same_objects c1 c3.
Proof. intros (?&?&?) (?&?&?). repeat split; congruence. Qed.

Lemma next_fault_objects c f c' : next_fault c = (f, c') → same_objects c c'.
Proof.
  unfold next_fault. destruct (faults c); intros [= <- <-]; by repeat split.
Qed.

(** Reads change no object. *)
Lemma cluster_get_objects {A} (sel : Cluster → gmap types.NamespacedName A)
    key c r c' :
  cluster_get sel key c = (r, c') → same_objects c c'.
Proof.
  unfold cluster_get. destruct (next_fault c) as [f c1] eqn:F.
  apply next_fault_objects in F. by destruct f; intros [= <- <-].
Qed.

Lemma store_create_failed o c err c' : store_create o c = (Some err, c') → c' = c.
Proof. destruct o; cbn; by repeat case_match; intros [= <- <-]. Qed.

Lemma store_update_failed o c err c' : store_update o c = (Some err, c') → c' = c.
Proof. destruct o; cbn; by repeat case_match; intros [= <- <-]. Qed.

Lemma store_status_update_failed o c err c' :
  store_status_update o c = (Some err, c') → c' = c.
Proof. destruct o; cbn; by repeat case_match; intros [= <- <-]. Qed.

(** A write that fails changes no object. *)
Lemma cluster_write_failed op o c err c' :
  (∀ c0 e c1, op o c0 = (Some e, c1) → c1 = c0) →
  cluster_write op o c = (Some err, c') → same_objects c c'.
Proof.
  intros Hop. unfold cluster_write. destruct (next_fault c) as [f c1] eqn:F.
  apply next_fault_objects in F. destruct f.
  - by intros [= <- <-].
  - intros E. apply Hop in E. by subst.
Qed.

(** With no fault pending the store answers from its contents. *)
Lemma cluster_get_healthy {A} (sel : Cluster → gmap types.NamespacedName A)
    key c :
  faults c = [] → cluster_get sel key c = (lookup_obj (sel c) key, c).
Proof. unfold cluster_get, next_fault. by intros ->. Qed.

Lemma cluster_write_healthy op o c :
  faults c = [] → cluster_write op o c = op o c.
Proof. unfold cluster_write, next_fault. by intros ->. Qed.

(** A pass that returns an error leaves every object of the cluster as it
    was. *)
Lemma failed_pass_objects req (w : World Cluster) r err w' :
  reconciles req w (Done (r, Some err)) w' → same_objects (api w) (api w').
Proof.
  inversion 1; subst; cbn [api log];
    repeat match goal with
           | E : after_write ?e _ = Done (_, Some _) |- _ =>
               destruct e; [clear E|discriminate E]
           | E : GetWebApp _ _ = _ |- _ => apply cluster_get_objects in E
           | E : GetDeployment _ _ = _ |- _ => apply cluster_get_objects in E
           | E : GetService _ _ = _ |- _ => apply cluster_get_objects in E
           | E : Create _ _ = _ |- _ =>
               apply (cluster_write_failed _ _ _ _ _ (store_create_failed _)) in E
           | E : Update _ _ = _ |- _ =>
               apply (cluster_write_failed _ _ _ _ _ (store_update_failed _)) in E
           | E : StatusUpdate _ _ = _ |- _ =>
               apply (cluster_write_failed _ _ _ _ _
                        (store_status_update_failed _)) in E
           end;
    eauto using same_objects_trans.
Qed.

(** Whatever the client answers, only the last operation of a pass can be a
    write. *)
Lemma reconciles_reads_first {St : Type} `{Client St}
    (req : ctrl.Request) (w : World St) out w' :
  reconciles req w out w' →
  calls w = [] →
  ∀ pre ev post,
    calls w' = pre ++ ev :: post →
    Forall (λ ev', is_write (ev_call ev') = false) pre.
Proof.
  intros Hr Hnil pre ev post Hc.
  destruct Hr; cbn [calls log] in Hc; rewrite Hnil in Hc; cbn [app] in Hc;
    destruct pre as [|? [|? [|? [|? [|? ?]]]]]; simplify_eq/=;
    repeat constructor.
Qed.

(** ** Claims *)

(** C7. If a store operation of a pass returns an error (a read that finds
    nothing apart, on which the reconciler branches), then no store
    operation follows it, the pass returns that error with the empty
    result, every operation before it was a read, and the objects of the
    cluster, the WebApp with its spec and status among them, are what they
    were before the pass. *)
Theorem store_failure_aborts_pass (req : ctrl.Request) (t : Time) (c : Cluster)
    out w' pre ev post err :
  pass req t c = (out, w') →
  calls w' = pre ++ ev :: post →
  failure ev = Some err →
  post = [] ∧
  out = Done ({| ctrl.Requeue := false; ctrl.RequeueAfter := 0 |}, Some err) ∧
  Forall (λ ev', is_write (ev_call ev') = false) pre ∧
  webapps (api w') = webapps c ∧
  deployments (api w') = deployments c ∧
  services (api w') = services c.
Proof.
  intros E Hc Hf. apply reconciles_complete in E.
  destruct (reconciles_abort _ _ _ _ E eq_refl _ _ _ _ Hc Hf) as [-> ->].
  pose proof (reconciles_reads_first _ _ _ _ E eq_refl _ _ _ Hc) as Hpre.
  apply failed_pass_objects in E as (?&?&?). by cbn in *.
Qed.

Lemma store_failure_aborts_pass_witness :
  let ev := {| ev_call := CallCreate (ObjDeployment (deploymentForWebApp nginx_app));
               ev_err := Some timeout_error |} in
  (pass nginx_req 10 faulty_cluster).1 =
    Done ({| ctrl.Requeue := false; ctrl.RequeueAfter := 0 |}, Some timeout_error) ∧
  webapps (api (pass nginx_req 10 faulty_cluster).2) = webapps faulty_cluster ∧
  deployments (api (pass nginx_req 10 faulty_cluster).2) = ∅.
Proof.
  intros ev.
  destruct (store_failure_aborts_pass nginx_req 10 faulty_cluster
              (pass nginx_req 10 faulty_cluster).1
              (pass nginx_req 10 faulty_cluster).2
              [ {| ev_call := CallGet KWebApp (nginx_key);
                   ev_err := None |};
                {| ev_call := CallGet KDeployment (nginx_key);
                   ev_err := Some NotFound |} ]
              ev [] timeout_error)
    as (_ & Hout & _ & Hw & Hd & _).
  - vm_compute. reflexivity.
  - vm_compute. reflexivity.
  - vm_compute. reflexivity.
  - auto.
Defined.

(** ** The healthy cluster, operation by operation *)

Section Healthy.
Variable c : Cluster.
Hypothesis healthy : faults c = [].

Lemma GetWebApp_found key w :
  webapps c !! key = Some w → GetWebApp key c = (Got w, c).
Proof.
  intros E. cbn. rewrite cluster_get_healthy by done.
  unfold lookup_obj. by rewrite E.
Qed.

Lemma GetWebApp_absent key :
  webapps c !! key = None → GetWebApp key c = (Failed NotFound, c).
Proof.
  intros E. cbn. rewrite cluster_get_healthy by done.
  unfold lookup_obj. by rewrite E.
Qed.

Lemma GetDeployment_found key d :
  deployments c !! key = Some d → GetDeployment key c = (Got d, c).
Proof.
  intros E. cbn. rewrite cluster_get_healthy by done.
  unfold lookup_obj. by rewrite E.
Qed.

Lemma GetDeployment_absent key :
  deployments c !! key = None → GetDeployment key c = (Failed NotFound, c).
Proof.
  intros E. cbn. rewrite cluster_get_healthy by done.
  unfold lookup_obj. by rewrite E.
Qed.

Lemma GetService_found key s :
  services c !! key = Some s → GetService key c = (Got s, c).
Proof.
  intros E. cbn. rewrite cluster_get_healthy by done.
  unfold lookup_obj. by rewrite E.
Qed.

Lemma GetService_absent key :
  services c !! key = None → GetService key c = (Failed NotFound, c).
Proof.
  intros E. cbn. rewrite cluster_get_healthy by done.
  unfold lookup_obj. by rewrite E.
Qed.

Lemma Create_deployment_fresh webapp :
  deployments c !! webapp_key webapp = None →
  Create (ObjDeployment (deploymentForWebApp webapp)) c =
    (None,
     set_deployments
       (<[webapp_key webapp := deploymentForWebApp webapp]> (deployments c)) c).
Proof.
  intros E. cbn [Create Cluster_Client].
  rewrite cluster_write_healthy by done.
  unfold store_create.
  change (meta_key (appsv1.ObjectMeta (deploymentForWebApp webapp)))
    with (webapp_key webapp).
  by rewrite E.
Qed.

Lemma Create_service_fresh webapp :
  services c !! webapp_key webapp = None →
  Create (ObjService (serviceForWebApp webapp)) c =
    (None,
     set_services
       (<[webapp_key webapp := serviceForWebApp webapp]> (services c)) c).
Proof.
  intros E. cbn [Create Cluster_Client].
  rewrite cluster_write_healthy by done.
  unfold store_create.
  change (meta_key (corev1.ObjectMeta (serviceForWebApp webapp)))
    with (webapp_key webapp).
  by rewrite E.
Qed.

Lemma Update_deployment_stored webapp d :
  deployments c !! meta_key (appsv1.ObjectMeta d) = Some d →
  Update (ObjDeployment (scaled webapp d)) c =
    (None,
     set_deployments
       (<[meta_key (appsv1.ObjectMeta d) := scaled webapp d]> (deployments c))
       c).
Proof.
  intros E. cbn [Update Cluster_Client].
  rewrite cluster_write_healthy by done.
  unfold store_update.
  change (appsv1.ObjectMeta (scaled webapp d)) with (appsv1.ObjectMeta d).
  by rewrite E.
Qed.

Lemma StatusUpdate_webapp_stored webapp d now :
  webapps c !! webapp_key webapp = Some webapp →
  StatusUpdate (ObjWebApp (observed webapp d now)) c =
    (None,
     set_webapps
       (<[webapp_key webapp := observed webapp d now]> (webapps c)) c).
Proof.
  intros E. cbn [StatusUpdate Cluster_Client].
  rewrite cluster_write_healthy by done.
  unfold store_status_update.
  change (webapp_key (observed webapp d now)) with (webapp_key webapp).
  by rewrite E.
Qed.
End Healthy.

(** Writing the status of a WebApp touches neither Deployments nor
    Services. *)
Lemma StatusUpdate_webapp_dependents w c e c' :
  StatusUpdate (ObjWebApp w) c = (e, c') →
  deployments c' = deployments c ∧ services c' = services c.
Proof.
  cbn. unfold cluster_write, next_fault, store_status_update.
  by repeat case_match; intros; simplify_eq/=.
Qed.

(** ** The passes of a healthy cluster *)

Section HealthyPass.
Variables (req : ctrl.Request) (t : Time) (c : Cluster) (webapp : WebApp).
Hypothesis healthy : faults c = [].
Hypothesis stored : webapps c !! ctrl.NamespacedName req = Some webapp.

(** No Deployment: it is created. *)
Lemma pass_create_deployment :
  deployments c !! webapp_key webapp = None →
  pass req t c =
    (Done ({| ctrl.Requeue := true; ctrl.RequeueAfter := 0 |}, None),
     {| api :=
          set_deployments
            (<[webapp_key webapp := deploymentForWebApp webapp]>
               (deployments c)) c;
        clock := t;
        calls :=
          [ {| ev_call := CallGet KWebApp (ctrl.NamespacedName req);
               ev_err := None |};
            {| ev_call := CallGet KDeployment (webapp_key webapp);
               ev_err := Some NotFound |};
            {| ev_call :=
                 CallCreate (ObjDeployment (deploymentForWebApp webapp));
               ev_err := None |} ] |}).
Proof.
  intros Hd. unfold pass. apply reconciles_sound.
  exact (R_create_deployment req {| api := c; clock := t; calls := [] |} webapp NotFound None c c _
           (GetWebApp_found c healthy _ _ stored)
           (GetDeployment_absent c healthy _ Hd)
           eq_refl
           (Create_deployment_fresh c healthy _ Hd)).
Qed.

(** A Deployment without a replica count: the pass panics. *)
Lemma pass_nil_replicas d :
  deployments c !! webapp_key webapp = Some d →
  appsv1.Replicas (appsv1.Spec d) = None →
  pass req t c =
    (Panic,
     {| api := c; clock := t;
        calls :=
          [ {| ev_call := CallGet KWebApp (ctrl.NamespacedName req);
               ev_err := None |};
            {| ev_call := CallGet KDeployment (webapp_key webapp);
               ev_err := None |} ] |}).
Proof.
  intros Hd R. unfold pass. apply reconciles_sound.
  exact (R_nil_replicas req {| api := c; clock := t; calls := [] |} webapp d c c
           (GetWebApp_found c healthy _ _ stored)
           (GetDeployment_found c healthy _ _ Hd) R).
Qed.

(** A Deployment with another replica count: it is updated. *)
Lemma pass_update_replicas d n :
  deployments c !! webapp_key webapp = Some d →
  meta_key (appsv1.ObjectMeta d) = webapp_key webapp →
  appsv1.Replicas (appsv1.Spec d) = Some n →
  n ≠ Replicas (Spec webapp) →
  pass req t c =
    (Done ({| ctrl.Requeue := true; ctrl.RequeueAfter := 0 |}, None),
     {| api :=
          set_deployments
            (<[webapp_key webapp := scaled webapp d]> (deployments c)) c;
        clock := t;
        calls :=
          [ {| ev_call := CallGet KWebApp (ctrl.NamespacedName req);
               ev_err := None |};
            {| ev_call := CallGet KDeployment (webapp_key webapp);
               ev_err := None |};
            {| ev_call := CallUpdate (ObjDeployment (scaled webapp d));
               ev_err := None |} ] |}).
Proof.
  intros Hd Hk R Hn. unfold pass. apply reconciles_sound.
  assert (deployments c !! meta_key (appsv1.ObjectMeta d) = Some d) as Hd'
    by by rewrite Hk.
  pose proof (Update_deployment_stored c healthy webapp d Hd') as U.
  rewrite Hk in U.
  exact (R_update_replicas req {| api := c; clock := t; calls := [] |} webapp d n None c c _
           (GetWebApp_found c healthy _ _ stored)
           (GetDeployment_found c healthy _ _ Hd) R Hn U).
Qed.

(** The Deployment matches and there is no Service: it is created. *)
Lemma pass_create_service d :
  deployments c !! webapp_key webapp = Some d →
  appsv1.Replicas (appsv1.Spec d) = Some (Replicas (Spec webapp)) →
  services c !! webapp_key webapp = None →
  pass req t c =
    (Done ({| ctrl.Requeue := true; ctrl.RequeueAfter := 0 |}, None),
     {| api :=
          set_services
            (<[webapp_key webapp := serviceForWebApp webapp]> (services c)) c;
        clock := t;
        calls :=
          [ {| ev_call := CallGet KWebApp (ctrl.NamespacedName req);
               ev_err := None |};
            {| ev_call := CallGet KDeployment (webapp_key webapp);
               ev_err := None |};
            {| ev_call := CallGet KService (webapp_key webapp);
               ev_err := Some NotFound |};
            {| ev_call := CallCreate (ObjService (serviceForWebApp webapp));
               ev_err := None |} ] |}).
Proof.
  intros Hd R Hs. unfold pass. apply reconciles_sound.
  exact (R_create_service req {| api := c; clock := t; calls := [] |} webapp d NotFound None c c c _
           (GetWebApp_found c healthy _ _ stored)
           (GetDeployment_found c healthy _ _ Hd) R
           (GetService_absent c healthy _ Hs)
           eq_refl
           (Create_service_fresh c healthy _ Hs)).
Qed.

(** Both dependents are there and the Deployment matches: the status is
    written. *)
Lemma pass_update_status d s :
  webapp_key webapp = ctrl.NamespacedName req →
  deployments c !! webapp_key webapp = Some d →
  appsv1.Replicas (appsv1.Spec d) = Some (Replicas (Spec webapp)) →
  services c !! webapp_key webapp = Some s →
  pass req t c =
    (Done ({| ctrl.Requeue := false; ctrl.RequeueAfter := 30 * Second |}, None),
     {| api :=
          set_webapps (<[webapp_key webapp := observed webapp d t]> (webapps c))
            c;
        clock := t;
        calls :=
          [ {| ev_call := CallGet KWebApp (ctrl.NamespacedName req);
               ev_err := None |};
            {| ev_call := CallGet KDeployment (webapp_key webapp);
               ev_err := None |};
            {| ev_call := CallGet KService (webapp_key webapp);
               ev_err := None |};
            {| ev_call := CallStatusUpdate (ObjWebApp (observed webapp d t));
               ev_err := None |} ] |}).
Proof.
  intros Hk Hd R Hs. unfold pass. apply reconciles_sound.
  assert (webapps c !! webapp_key webapp = Some webapp) as Hw
    by by rewrite Hk.
  exact (R_update_status req {| api := c; clock := t; calls := [] |} webapp d s None c c c _
           (GetWebApp_found c healthy _ _ stored)
           (GetDeployment_found c healthy _ _ Hd) R
           (GetService_found c healthy _ _ Hs)
           (StatusUpdate_webapp_stored c healthy webapp d t Hw)).
Qed.
End HealthyPass.

(** C8. Whatever the client: when the first fetch answers that the WebApp
    is not there, the pass succeeds with the empty result, which asks for no
    re-queue, and that one read is all it did: nothing is written and
    nothing else is read. *)
Theorem absent_declaration_is_ignored {St : Type} `{Client St}
    (req : ctrl.Request) (w : World St) (err : error) (st1 : St) :
  GetWebApp (ctrl.NamespacedName req) (api w) = (Failed err, st1) →
  errors.IsNotFound err = true →
  (Reconcile req w).1 =
    Done ({| ctrl.Requeue := false; ctrl.RequeueAfter := 0 |}, None) ∧
  calls (Reconcile req w).2 =
    calls w ++ [ {| ev_call := CallGet KWebApp (ctrl.NamespacedName req);
                    ev_err := Some err |} ] ∧
  writes (calls (Reconcile req w).2) = writes (calls w) ∧
  api (Reconcile req w).2 = st1.
Proof.
  intros E NF. rewrite (reconciles_sound _ _ _ _ (R_no_webapp req w err st1 E)).
  rewrite NF. cbn [fst snd calls api log]. repeat split.
  unfold writes. rewrite List.filter_app. cbn. by rewrite app_nil_r.
Qed.

Lemma absent_declaration_is_ignored_witness :
  (pass {| ctrl.NamespacedName :=
             {| types.Namespace := "default"; types.Name := "gone" |} |}
        10 converged_cluster).1 =
    Done ({| ctrl.Requeue := false; ctrl.RequeueAfter := 0 |}, None) ∧
  api (pass {| ctrl.NamespacedName :=
                 {| types.Namespace := "default"; types.Name := "gone" |} |}
            10 converged_cluster).2 = converged_cluster.
Proof.
  destruct (absent_declaration_is_ignored
              {| ctrl.NamespacedName :=
                   {| types.Namespace := "default"; types.Name := "gone" |} |}
              {| api := converged_cluster; clock := 10; calls := [] |}
              NotFound converged_cluster)
    as (Hout & _ & _ & Hapi).
  - vm_compute. reflexivity.
  - reflexivity.
  - split; [exact Hout | exact Hapi].
Defined.

(** C4. When the WebApp exists and no Deployment is stored under its name
    (it was never created, or it was deleted), then whatever else the
    cluster holds the pass looks the Deployment up, creates the one that
    [deploymentForWebApp] builds from the WebApp, and returns an immediate
    re-queue.  The creation is its last operation: no Service is looked up,
    no status is written, and WebApps and Services are what they were.  The
    Deployment built does not depend on the status the WebApp carries, so a
    re-creation yields what the first creation did. *)
Theorem absent_workload_is_created (req : ctrl.Request) (t : Time)
    (c : Cluster) (webapp : WebApp) :
  faults c = [] →
  webapps c !! ctrl.NamespacedName req = Some webapp →
  deployments c !! webapp_key webapp = None →
  (pass req t c).1 =
    Done ({| ctrl.Requeue := true; ctrl.RequeueAfter := 0 |}, None) ∧
  calls (pass req t c).2 =
    [ {| ev_call := CallGet KWebApp (ctrl.NamespacedName req); ev_err := None |};
      {| ev_call := CallGet KDeployment (webapp_key webapp);
         ev_err := Some NotFound |};
      {| ev_call := CallCreate (ObjDeployment (deploymentForWebApp webapp));
         ev_err := None |} ] ∧
  deployments (api (pass req t c).2) =
    <[webapp_key webapp := deploymentForWebApp webapp]> (deployments c) ∧
  webapps (api (pass req t c).2) = webapps c ∧
  services (api (pass req t c).2) = services c ∧
  (∀ status,
     deploymentForWebApp
       {| ObjectMeta := ObjectMeta webapp; Spec := Spec webapp;
          Status := status |} = deploymentForWebApp webapp).
Proof.
  intros Hf Hw Hd. by rewrite (pass_create_deployment req t c webapp Hf Hw Hd).
Qed.

Lemma absent_workload_is_created_witness :
  deployments (delete_deployment nginx_key converged_cluster) !! nginx_key = None ∧
  (pass nginx_req 300 (delete_deployment nginx_key converged_cluster)).1 =
    Done ({| ctrl.Requeue := true; ctrl.RequeueAfter := 0 |}, None) ∧
  deployments
    (api (pass nginx_req 300 (delete_deployment nginx_key converged_cluster)).2)
    !! nginx_key = Some (deploymentForWebApp nginx_app).
Proof.
  destruct (absent_workload_is_created nginx_req 300
              (delete_deployment nginx_key converged_cluster) nginx_ready)
    as (Hout & _ & Hd & _).
  - reflexivity.
  - vm_compute. reflexivity.
  - vm_compute. reflexivity.
  - split; [vm_compute; reflexivity|]. split; [exact Hout|].
    rewrite Hd. vm_compute. reflexivity.
Defined.

(** C5. When the stored Deployment has a replica count other than the
    spec's, the pass issues one write, an update of that Deployment with the
    replica count of the spec and everything else as fetched, and returns an
    immediate re-queue without looking at the Service or writing a status.
    The next pass finds the counts equal, issues no update, and goes on to
    look the Service up. *)
Theorem replica_drift_is_corrected (req : ctrl.Request) (t t' : Time)
    (c : Cluster) (webapp : WebApp) (d : appsv1.Deployment) (n : int32) :
  faults c = [] →
  webapps c !! ctrl.NamespacedName req = Some webapp →
  deployments c !! webapp_key webapp = Some d →
  meta_key (appsv1.ObjectMeta d) = webapp_key webapp →
  appsv1.Replicas (appsv1.Spec d) = Some n →
  n ≠ Replicas (Spec webapp) →
  let d' :=
    {| appsv1.ObjectMeta := appsv1.ObjectMeta d;
       appsv1.Spec :=
         {| appsv1.Replicas := Some (Replicas (Spec webapp));
            appsv1.Selector := appsv1.Selector (appsv1.Spec d);
            appsv1.Template := appsv1.Template (appsv1.Spec d) |};
       appsv1.Status := appsv1.Status d |} in
  let p1 := pass req t c in
  let p2 := pass req t' (api p1.2) in
  p1.1 = Done ({| ctrl.Requeue := true; ctrl.RequeueAfter := 0 |}, None) ∧
  calls p1.2 =
    [ {| ev_call := CallGet KWebApp (ctrl.NamespacedName req); ev_err := None |};
      {| ev_call := CallGet KDeployment (webapp_key webapp); ev_err := None |};
      {| ev_call := CallUpdate (ObjDeployment d'); ev_err := None |} ] ∧
  deployments (api p1.2) = <[webapp_key webapp := d']> (deployments c) ∧
  webapps (api p1.2) = webapps c ∧
  services (api p1.2) = services c ∧
  (∃ e rest,
     calls p2.2 =
       {| ev_call := CallGet KWebApp (ctrl.NamespacedName req); ev_err := None |}
       :: {| ev_call := CallGet KDeployment (webapp_key webapp); ev_err := None |}
       :: {| ev_call := CallGet KService (webapp_key webapp); ev_err := e |}
       :: rest) ∧
  deployments (api p2.2) = deployments (api p1.2).
Proof.
  intros Hf Hw Hd Hk R Hn d' p1 p2. subst p2 p1.
  rewrite (pass_update_replicas req t c webapp Hf Hw d n Hd Hk R Hn).
  fold d'. cbn [fst snd calls api set_deployments deployments webapps services].
  do 5 (split; [done|]).
  set (c1 := set_deployments _ c).
  assert (faults c1 = []) as Hf1 by done.
  assert (webapps c1 !! ctrl.NamespacedName req = Some webapp) as Hw1 by done.
  assert (deployments c1 !! webapp_key webapp = Some d') as Hd1
    by apply lookup_insert_eq.
  destruct (services c1 !! webapp_key webapp) as [s|] eqn:Hs.
  - destruct (StatusUpdate (ObjWebApp (observed webapp d' t')) c1)
      as [e c2] eqn:E.
    unfold pass.
    rewrite (reconciles_sound _ _ _ _
               (R_update_status req {| api := c1; clock := t'; calls := [] |}
                  webapp d' s e c1 c1 c1 c2
                  (GetWebApp_found c1 Hf1 _ _ Hw1)
                  (GetDeployment_found c1 Hf1 _ _ Hd1) eq_refl
                  (GetService_found c1 Hf1 _ _ Hs) E)).
    cbn [fst snd calls api log app]. split; [by eauto|].
    by apply StatusUpdate_webapp_dependents in E as [? _].
  - rewrite (pass_create_service req t' c1 webapp Hf1 Hw1 d' Hd1 eq_refl Hs).
    split; [by eauto|done].
Qed.

Lemma replica_drift_is_corrected_witness :
  (pass nginx_req 10 scaled_up_cluster).1 =
    Done ({| ctrl.Requeue := true; ctrl.RequeueAfter := 0 |}, None) ∧
  deployments (api (pass nginx_req 10 scaled_up_cluster).2) !! nginx_key =
    Some (nginx_deployment (Some 5) 3).
Proof.
  destruct (replica_drift_is_corrected nginx_req 10 11 scaled_up_cluster
              (nginx 5 (Status nginx_ready)) (nginx_deployment (Some 3) 3) 3)
    as (Hout & _ & Hd & _).
  - reflexivity.
  - vm_compute. reflexivity.
  - vm_compute. reflexivity.
  - vm_compute. reflexivity.
  - reflexivity.
  - intros E. discriminate E.
  - split; [exact Hout|]. rewrite Hd. vm_compute. reflexivity.
Defined.

(** C6. When the WebApp is stored under its name, its Deployment has the
    replica count of the spec and its Service exists, the pass writes a
    status and returns a re-queue after 30 seconds.  The status written has
    the available replicas of the Deployment and one condition, of type
    Ready: True with reason DeploymentReady when the available replicas
    equal the replicas of the spec, False with reason DeploymentNotReady
    when they do not.  Metadata and spec are stored as they were. *)
Theorem status_reports_readiness (req : ctrl.Request) (t : Time) (c : Cluster)
    (webapp : WebApp) (d : appsv1.Deployment) (s : corev1.Service) :
  faults c = [] →
  webapps c !! ctrl.NamespacedName req = Some webapp →
  webapp_key webapp = ctrl.NamespacedName req →
  deployments c !! webapp_key webapp = Some d →
  appsv1.Replicas (appsv1.Spec d) = Some (Replicas (Spec webapp)) →
  services c !! webapp_key webapp = Some s →
  let available := appsv1.AvailableReplicas (appsv1.Status d) in
  ∃ cond : metav1.Condition,
    (pass req t c).1 =
      Done ({| ctrl.Requeue := false; ctrl.RequeueAfter := 30 * Second |}, None) ∧
    webapps (api (pass req t c).2) !! webapp_key webapp =
      Some {| ObjectMeta := ObjectMeta webapp;
              Spec := Spec webapp;
              Status := {| AvailableReplicas := available;
                           Conditions := [cond] |} |} ∧
    last (calls (pass req t c).2) =
      Some {| ev_call :=
                CallStatusUpdate
                  (ObjWebApp
                     {| ObjectMeta := ObjectMeta webapp;
                        Spec := Spec webapp;
                        Status := {| AvailableReplicas := available;
                                     Conditions := [cond] |} |});
              ev_err := None |} ∧
    metav1.cond_Type cond = "Ready" ∧
    (available = Replicas (Spec webapp) →
     metav1.cond_Status cond = metav1.ConditionTrue ∧
     metav1.cond_Reason cond = "DeploymentReady") ∧
    (available ≠ Replicas (Spec webapp) →
     metav1.cond_Status cond = metav1.ConditionFalse ∧
     metav1.cond_Reason cond = "DeploymentNotReady").
Proof.
  intros Hf Hw Hk Hd R Hs available.
  rewrite (pass_update_status req t c webapp Hf Hw d s Hk Hd R Hs).
  exists (readiness available (Replicas (Spec webapp)) t).
  cbn [fst snd calls api set_webapps webapps].
  rewrite lookup_insert_eq. do 4 (split; [done|]). split.
  - intros E. cbn. by rewrite E, Z.eqb_refl.
  - intros E%Z.eqb_neq. cbn. by rewrite E.
Qed.

Lemma status_reports_readiness_witness :
  (pass nginx_req 200 converged_cluster).1 =
    Done ({| ctrl.Requeue := false; ctrl.RequeueAfter := 30 * Second |}, None) ∧
  map metav1.cond_Status
    (stored_conditions (api (pass nginx_req 200 converged_cluster).2) nginx_key)
    = [metav1.ConditionTrue].
Proof.
  destruct (status_reports_readiness nginx_req 200 converged_cluster
              nginx_ready (nginx_deployment (Some 3) 3)
              (serviceForWebApp nginx_app))
    as (cond & Hout & Hw & _ & _ & Hready & _).
  - reflexivity.
  - vm_compute. reflexivity.
  - reflexivity.
  - vm_compute. reflexivity.
  - reflexivity.
  - vm_compute. reflexivity.
  - split; [exact Hout|]. unfold stored_conditions.
    change (webapp_key nginx_ready) with nginx_key in Hw. rewrite Hw.
    cbn [Status Conditions map]. destruct Hready as [-> _]; reflexivity.
Defined.

(** C1, as stated, fails: on a converged cluster the pass writes the status
    again.  Here the WebApp was found ready at time 100; the pass at time
    200 issues a status update, and what is stored afterwards differs from
    what was stored before. *)
Lemma idempotence_counterexample :
  converged converged_cluster nginx_ready ∧
  faults converged_cluster = [] ∧
  writes (calls (pass nginx_req 200 converged_cluster).2) ≠ [] ∧
  webapps (api (pass nginx_req 200 converged_cluster).2)
    ≠ webapps converged_cluster.
Proof.
  split; [|split; [reflexivity|split]].
  - split; [vm_compute; reflexivity|]. split.
    + exists (nginx_deployment (Some 3) 3). split; vm_compute; reflexivity.
    + exists (serviceForWebApp nginx_app). vm_compute. reflexivity.
  - vm_compute. intros E. discriminate E.
  - intros E. apply (f_equal (λ m, stored_conditions
                                     {| webapps := m; deployments := ∅;
                                        services := ∅; faults := [] |}
                                     nginx_key)) in E.
    vm_compute in E. discriminate E.
Qed.

(** C1, amended.  On a converged cluster a pass on the WebApp's name issues
    one write, the update of the WebApp's status, and returns the re-queue
    after 30 seconds.  Deployments and Services are what they were, and the
    WebApp stored afterwards has the metadata and the spec it had. *)
Theorem converged_pass_writes_status_only (req : ctrl.Request) (t : Time)
    (c : Cluster) (webapp : WebApp) :
  faults c = [] →
  ctrl.NamespacedName req = webapp_key webapp →
  converged c webapp →
  ∃ webapp' : WebApp,
    (pass req t c).1 =
      Done ({| ctrl.Requeue := false; ctrl.RequeueAfter := 30 * Second |}, None) ∧
    writes (calls (pass req t c).2) =
      [ {| ev_call := CallStatusUpdate (ObjWebApp webapp'); ev_err := None |} ] ∧
    webapps (api (pass req t c).2) = <[webapp_key webapp := webapp']> (webapps c) ∧
    ObjectMeta webapp' = ObjectMeta webapp ∧
    Spec webapp' = Spec webapp ∧
    deployments (api (pass req t c).2) = deployments c ∧
    services (api (pass req t c).2) = services c.
Proof.
  intros Hf Hk (Hw & (d & Hd & R) & (s & Hs)).
  rewrite <- Hk in Hw.
  rewrite (pass_update_status req t c webapp Hf Hw d s (eq_sym Hk) Hd R Hs).
  by exists (observed webapp d t).
Qed.

Lemma converged_pass_writes_status_only_witness :
  (pass nginx_req 200 converged_cluster).1 =
    Done ({| ctrl.Requeue := false; ctrl.RequeueAfter := 30 * Second |}, None) ∧
  deployments (api (pass nginx_req 200 converged_cluster).2)
    = deployments converged_cluster ∧
  services (api (pass nginx_req 200 converged_cluster).2)
    = services converged_cluster.
Proof.
  destruct (converged_pass_writes_status_only nginx_req 200 converged_cluster
              nginx_ready)
    as (w' & Hout & _ & _ & _ & _ & Hd & Hs).
  - reflexivity.
  - reflexivity.
  - split; [vm_compute; reflexivity|]. split.
    + exists (nginx_deployment (Some 3) 3). split; vm_compute; reflexivity.
    + exists (serviceForWebApp nginx_app). vm_compute. reflexivity.
  - split; [exact Hout|]. split; [exact Hd|exact Hs].
Defined.

(** C2, as stated, fails: the stored condition was True since time 100; the
    pass at time 200 finds the replicas available as before, the condition
    stays True, and its timestamp becomes 200. *)
Lemma transition_time_counterexample :
  let after := api (pass nginx_req 200 converged_cluster).2 in
  map metav1.cond_Status (stored_conditions converged_cluster nginx_key)
    = [metav1.ConditionTrue] ∧
  map metav1.cond_Status (stored_conditions after nginx_key)
    = [metav1.ConditionTrue] ∧
  map metav1.cond_LastTransitionTime
    (stored_conditions converged_cluster nginx_key) = [100] ∧
  map metav1.cond_LastTransitionTime (stored_conditions after nginx_key) = [200].
Proof. vm_compute. repeat split; reflexivity. Qed.

(** C2, amended.  A pass that reaches the status step stamps the readiness
    condition with the time of the pass, whatever conditions the WebApp
    carried before and whether or not its state changes. *)
Theorem transition_time_is_time_of_pass (req : ctrl.Request) (t : Time)
    (c : Cluster) (webapp : WebApp) (d : appsv1.Deployment) (s : corev1.Service) :
  faults c = [] →
  webapps c !! ctrl.NamespacedName req = Some webapp →
  webapp_key webapp = ctrl.NamespacedName req →
  deployments c !! webapp_key webapp = Some d →
  appsv1.Replicas (appsv1.Spec d) = Some (Replicas (Spec webapp)) →
  services c !! webapp_key webapp = Some s →
  map metav1.cond_LastTransitionTime
    (stored_conditions (api (pass req t c).2) (webapp_key webapp)) = [t].
Proof.
  intros Hf Hw Hk Hd R Hs.
  rewrite (pass_update_status req t c webapp Hf Hw d s Hk Hd R Hs).
  unfold stored_conditions. cbn [snd api set_webapps webapps].
  by rewrite lookup_insert_eq.
Qed.

Lemma transition_time_is_time_of_pass_witness :
  map metav1.cond_LastTransitionTime
    (stored_conditions (api (pass nginx_req 200 converged_cluster).2) nginx_key)
    = [200].
Proof.
  apply (transition_time_is_time_of_pass nginx_req 200 converged_cluster
           nginx_ready (nginx_deployment (Some 3) 3)
           (serviceForWebApp nginx_app)).
  - reflexivity.
  - vm_compute. reflexivity.
  - reflexivity.
  - vm_compute. reflexivity.
  - reflexivity.
  - vm_compute. reflexivity.
Defined.

(** C3. From a cluster that holds the WebApp and neither dependent, three
    passes converge.  The first creates the Deployment and the second the
    Service, each with an immediate re-queue; the third, once the workload
    controller has reported [a] available replicas, writes the status and
    returns the re-queue after 30 seconds.  Afterwards the Deployment has the
    replica count of the spec, and the condition written is True when [a]
    is that count. *)
Theorem converges_in_three_passes (req : ctrl.Request) (t1 t2 t3 : Time)
    (c : Cluster) (webapp : WebApp) (a : int32) :
  faults c = [] →
  webapps c !! ctrl.NamespacedName req = Some webapp →
  webapp_key webapp = ctrl.NamespacedName req →
  deployments c !! webapp_key webapp = None →
  services c !! webapp_key webapp = None →
  let p1 := pass req t1 c in
  let p2 := pass req t2 (api p1.2) in
  let p3 := pass req t3 (report_available (webapp_key webapp) a (api p2.2)) in
  p1.1 = Done ({| ctrl.Requeue := true; ctrl.RequeueAfter := 0 |}, None) ∧
  writes (calls p1.2) =
    [ {| ev_call := CallCreate (ObjDeployment (deploymentForWebApp webapp));
         ev_err := None |} ] ∧
  p2.1 = Done ({| ctrl.Requeue := true; ctrl.RequeueAfter := 0 |}, None) ∧
  writes (calls p2.2) =
    [ {| ev_call := CallCreate (ObjService (serviceForWebApp webapp));
         ev_err := None |} ] ∧
  p3.1 =
    Done ({| ctrl.Requeue := false; ctrl.RequeueAfter := 30 * Second |}, None) ∧
  (∃ webapp', writes (calls p3.2) =
     [ {| ev_call := CallStatusUpdate (ObjWebApp webapp'); ev_err := None |} ]) ∧
  (∃ d, deployments (api p3.2) !! webapp_key webapp = Some d ∧
        appsv1.Replicas (appsv1.Spec d) = Some (Replicas (Spec webapp))) ∧
  services (api p3.2) !! webapp_key webapp = Some (serviceForWebApp webapp) ∧
  (∃ webapp' cond,
     webapps (api p3.2) !! webapp_key webapp = Some webapp' ∧
     Spec webapp' = Spec webapp ∧
     AvailableReplicas (Status webapp') = a ∧
     Conditions (Status webapp') = [cond] ∧
     metav1.cond_Type cond = "Ready" ∧
     (a = Replicas (Spec webapp) →
      metav1.cond_Status cond = metav1.ConditionTrue)).
Proof.
  intros Hf Hw Hk Hd Hs p1 p2 p3. subst p3 p2 p1.
  rewrite (pass_create_deployment req t1 c webapp Hf Hw Hd).
  cbn [fst snd calls api]. do 2 (split; [done|]).
  set (c1 := set_deployments _ c).
  assert (deployments c1 !! webapp_key webapp = Some (deploymentForWebApp webapp))
    as Hd1 by apply lookup_insert_eq.
  rewrite (pass_create_service req t2 c1 webapp Hf Hw _ Hd1 eq_refl Hs).
  cbn [fst snd calls api]. do 2 (split; [done|]).
  set (c2 := set_services _ c1).
  set (d3 := {| appsv1.ObjectMeta := appsv1.ObjectMeta (deploymentForWebApp webapp);
                appsv1.Spec := appsv1.Spec (deploymentForWebApp webapp);
                appsv1.Status := {| appsv1.AvailableReplicas := a |} |}).
  set (c3 := report_available (webapp_key webapp) a c2).
  assert (deployments c3 !! webapp_key webapp = Some d3) as Hd3.
  { subst c3 c2. unfold report_available.
    cbn [set_deployments set_services deployments].
    by rewrite lookup_alter_eq, Hd1. }
  assert (services c3 !! webapp_key webapp = Some (serviceForWebApp webapp))
    as Hs3 by apply lookup_insert_eq.
  rewrite (pass_update_status req t3 c3 webapp Hf Hw d3 _ Hk Hd3 eq_refl Hs3).
  cbn [fst snd calls api set_webapps webapps deployments services].
  split; [done|]. split; [by eexists|]. split; [by eauto|]. split; [done|].
  exists (observed webapp d3 t3), (readiness a (Replicas (Spec webapp)) t3).
  rewrite lookup_insert_eq. do 5 (split; [done|]).
  intros ->. cbn. by rewrite Z.eqb_refl.
Qed.

Lemma converges_in_three_passes_witness :
  let p1 := pass nginx_req 10 cluster0 in
  let p2 := pass nginx_req 11 (api p1.2) in
  let p3 := pass nginx_req 12 (report_available nginx_key 3 (api p2.2)) in
  p1.1 = Done ({| ctrl.Requeue := true; ctrl.RequeueAfter := 0 |}, None) ∧
  p2.1 = Done ({| ctrl.Requeue := true; ctrl.RequeueAfter := 0 |}, None) ∧
  p3.1 =
    Done ({| ctrl.Requeue := false; ctrl.RequeueAfter := 30 * Second |}, None) ∧
  map metav1.cond_Status (stored_conditions (api p3.2) nginx_key)
    = [metav1.ConditionTrue].
Proof.
  destruct (converges_in_three_passes nginx_req 10 11 12 cluster0 nginx_app 3)
    as (H1 & _ & H2 & _ & H3 & _ & _ & _ & (w' & cond & Hw & _ & _ & Hc & _ & Ht)).
  - reflexivity.
  - vm_compute. reflexivity.
  - reflexivity.
  - vm_compute. reflexivity.
  - vm_compute. reflexivity.
  - intros p1 p2 p3. split; [exact H1|]. split; [exact H2|]. split; [exact H3|].
    unfold stored_conditions.
    change (webapp_key nginx_app) with nginx_key in Hw.
    subst p3 p2 p1. rewrite Hw, Hc. cbn [map]. rewrite (Ht eq_refl). reflexivity.
Defined.

(** C9. A WebApp without a port gets 8080 as the container port of its
    Deployment and as the target port of its Service; one with a port gets
    that port in both places.  Every WebApp gets a
    Service on port 80 whose selector is the label set of the Deployment,
    which is also what the Deployment selects and labels its pods with. *)
Theorem synthesized_ports_and_selector (webapp : WebApp) :
  (Port (Spec webapp) = 0 →
   containerPorts (deploymentForWebApp webapp) = [8080] ∧
   targetPorts (serviceForWebApp webapp) = [intstr.Int 8080]) ∧
  (Port (Spec webapp) ≠ 0 →
   containerPorts (deploymentForWebApp webapp) = [Port (Spec webapp)] ∧
   targetPorts (serviceForWebApp webapp) = [intstr.Int (Port (Spec webapp))]) ∧
  servicePorts (serviceForWebApp webapp) = [80] ∧
  corev1.Selector (corev1.Spec (serviceForWebApp webapp)) =
    metav1.Labels (appsv1.ObjectMeta (deploymentForWebApp webapp)) ∧
  appsv1.Selector (appsv1.Spec (deploymentForWebApp webapp)) =
    Some {| metav1.MatchLabels :=
              corev1.Selector (corev1.Spec (serviceForWebApp webapp)) |} ∧
  metav1.Labels
    (corev1.tpl_ObjectMeta
       (appsv1.Template (appsv1.Spec (deploymentForWebApp webapp)))) =
    corev1.Selector (corev1.Spec (serviceForWebApp webapp)).
Proof.
  split; [|split; [|done]].
  - intros E. unfold containerPorts, targetPorts, deploymentForWebApp,
      serviceForWebApp. cbn. by rewrite E.
  - intros E%Z.eqb_neq. unfold containerPorts, targetPorts, deploymentForWebApp,
      serviceForWebApp. cbn. by rewrite E.
Qed.

Lemma synthesized_ports_and_selector_witness :
  Port (Spec portless_app) = 0 ∧
  containerPorts (deploymentForWebApp portless_app) = [8080] ∧
  targetPorts (serviceForWebApp portless_app) = [intstr.Int 8080].
Proof.
  split; [reflexivity|].
  apply (proj1 (synthesized_ports_and_selector portless_app)). reflexivity.
Defined.

(** C10. STEP 3 dereferences the replica count of the Deployment it
    fetched.  The Deployment that [deploymentForWebApp] builds has one, so
    does any Deployment with the spec of one, and on those the pass does not
    panic; on a fetched Deployment without a replica count the pass panics
    right after the two reads, and that is the only way it panics. *)
Theorem replica_dereference {St : Type} `{Client St}
    (req : ctrl.Request) (w : World St) (webapp : WebApp)
    (d : appsv1.Deployment) (st1 st2 : St) :
  GetWebApp (ctrl.NamespacedName req) (api w) = (Got webapp, st1) →
  GetDeployment (webapp_key webapp) st1 = (Got d, st2) →
  (∀ owner, appsv1.Replicas (appsv1.Spec (deploymentForWebApp owner)) =
            Some (Replicas (Spec owner))) ∧
  ((∃ owner, appsv1.Spec d = appsv1.Spec (deploymentForWebApp owner)) →
   (Reconcile req w).1 ≠ Panic) ∧
  ((Reconcile req w).1 = Panic ↔ appsv1.Replicas (appsv1.Spec d) = None) ∧
  (appsv1.Replicas (appsv1.Spec d) = None →
   calls (Reconcile req w).2 =
     calls w ++
     [ {| ev_call := CallGet KWebApp (ctrl.NamespacedName req); ev_err := None |};
       {| ev_call := CallGet KDeployment (webapp_key webapp); ev_err := None |} ]).
Proof.
  intros E1 E2.
  assert ((Reconcile req w).1 = Panic ↔ appsv1.Replicas (appsv1.Spec d) = None)
    as Hiff.
  { split.
    - destruct (Reconcile req w) as [out w'] eqn:E.
      apply reconciles_complete in E. cbn [fst]. intros ->.
      inversion E; subst;
        try match goal with
            | P : after_write ?e _ = Panic |- _ => by destruct e
            end.
      rewrite E1 in *. simplify_eq. rewrite E2 in *. by simplify_eq.
    - intros R.
      by rewrite (reconciles_sound _ _ _ _ (R_nil_replicas req w _ _ _ _ E1 E2 R)). }
  split; [done|]. split; [|split; [done|]].
  - intros [owner Hs] HP. apply Hiff in HP. by rewrite Hs in HP.
  - intros R.
    rewrite (reconciles_sound _ _ _ _ (R_nil_replicas req w _ _ _ _ E1 E2 R)).
    cbn [snd calls log]. by rewrite <- app_assoc.
Qed.

Lemma replica_dereference_witness :
  (pass nginx_req 10 foreign_cluster).1 = Panic ∧
  (pass nginx_req 10 converged_cluster).1 ≠ Panic.
Proof.
  split.
  - apply (replica_dereference nginx_req
             {| api := foreign_cluster; clock := 10; calls := [] |}
             nginx_app (nginx_deployment None 1) foreign_cluster foreign_cluster).
    + vm_compute. reflexivity.
    + vm_compute. reflexivity.
    + reflexivity.
  - apply (replica_dereference nginx_req
             {| api := converged_cluster; clock := 10; calls := [] |}
             nginx_ready (nginx_deployment (Some 3) 3)
             converged_cluster converged_cluster).
    + vm_compute. reflexivity.
    + vm_compute. reflexivity.
    + exists nginx_app. reflexivity.
Defined.

(** * Further properties *)

(** ** The synthesizers *)

Lemma appendEnv_map (envVars : list corev1.EnvVar) (env : list EnvVar) :
  appendEnv envVars env =
    envVars ++ map (λ e, {| corev1.env_Name := env_Name e;
                            corev1.env_Value := env_Value e |}) env.
Proof.
  revert envVars. induction env as [|e env IH]; intros envVars; cbn [appendEnv map].
  - by rewrite app_nil_r.
  - by rewrite IH, <- app_assoc.
Qed.

(** X1. The conversion loop of [deploymentForWebApp] hands the environment
    of the spec to the one container entry by entry and in order, names and
    values unchanged. *)
Theorem environment_is_passed_in_order (webapp : WebApp) :
  containerEnvs (deploymentForWebApp webapp) =
    [ map (λ e, {| corev1.env_Name := env_Name e;
                   corev1.env_Value := env_Value e |}) (Env (Spec webapp)) ].
Proof.
  unfold containerEnvs, deploymentForWebApp. cbn. by rewrite appendEnv_map.
Qed.

Lemma labelsFor_app (webapp : WebApp) :
  labelsFor webapp !! "app" = Some (Name webapp).
Proof. unfold labelsFor. by rewrite lookup_insert_eq. Qed.

(** X2. The Service of one WebApp selects the pods of the Deployment of
    another exactly when the two WebApps have the same name: every label the
    selector asks for is on the pods if and only if the names agree. *)
Theorem selector_selects_own_pods (w1 w2 : WebApp) :
  corev1.Selector (corev1.Spec (serviceForWebApp w1))
    ⊆ podLabels (deploymentForWebApp w2)
  ↔ Name w1 = Name w2.
Proof.
  change (labelsFor w1 ⊆ labelsFor w2 ↔ Name w1 = Name w2). split.
  - intros Hsub.
    pose proof (lookup_weaken _ _ _ _ (labelsFor_app w1) Hsub) as E.
    rewrite labelsFor_app in E. by injection E.
  - intros E. unfold labelsFor. by rewrite E.
Qed.

(** ** One pass, against any client *)

(** The operations a pass adds to the log, path by path. *)
Lemma reconciles_trace {St : Type} `{Client St}
    (req : ctrl.Request) (w : World St) out w' :
  reconciles req w out w' →
  ∃ tr, calls w' = calls w ++ tr ∧
        reconciles req {| api := api w; clock := clock w; calls := [] |} out
          {| api := api w'; clock := clock w'; calls := tr |}.
Proof.
  destruct 1; cbn [calls log api clock]; rewrite <- ?app_assoc; cbn [app];
    eexists; (split; [reflexivity|]).
  - exact (R_no_webapp req {| api := api w; clock := clock w; calls := [] |}
             err st1 H0).
  - exact (R_create_deployment req
             {| api := api w; clock := clock w; calls := [] |}
             webapp err e st1 st2 st3 H0 H1 H2 H3).
  - exact (R_get_deployment_failed req
             {| api := api w; clock := clock w; calls := [] |}
             webapp err st1 st2 H0 H1 H2).
  - exact (R_nil_replicas req
             {| api := api w; clock := clock w; calls := [] |}
             webapp deployment st1 st2 H0 H1 H2).
  - exact (R_update_replicas req
             {| api := api w; clock := clock w; calls := [] |}
             webapp deployment n e st1 st2 st3 H0 H1 H2 H3 H4).
  - exact (R_create_service req
             {| api := api w; clock := clock w; calls := [] |}
             webapp deployment err e st1 st2 st3 st4 H0 H1 H2 H3 H4 H5).
  - exact (R_get_service_failed req
             {| api := api w; clock := clock w; calls := [] |}
             webapp deployment err st1 st2 st3 H0 H1 H2 H3 H4).
  - exact (R_update_status req
             {| api := api w; clock := clock w; calls := [] |}
             webapp deployment service e st1 st2 st3 st4 H0 H1 H2 H3 H4).
Qed.

(** X3. A pass issues between one and four store operations, the first of
    them the read of the WebApp it was asked about, and at most one of them
    a write. *)
Theorem pass_is_bounded {St : Type} `{Client St}
    (req : ctrl.Request) (w : World St) :
  ∃ tr e rest,
    calls (Reconcile req w).2 = calls w ++ tr ∧
    tr = {| ev_call := CallGet KWebApp (ctrl.NamespacedName req); ev_err := e |}
         :: rest ∧
    (length tr ≤ 4)%nat ∧
    (length (writes tr) ≤ 1)%nat.
Proof.
  destruct (Reconcile req w) as [out w'] eqn:E.
  apply reconciles_complete, reconciles_trace in E as (tr & Htr & Hr).
  exists tr. cbn [snd]. rewrite Htr.
  inversion Hr; subst; cbn [calls log app];
    do 2 eexists; (split; [reflexivity|]); (split; [reflexivity|]);
    cbn; lia.
Qed.



(** X5. The directive of a pass tells what the pass did.  It asks for an
    immediate re-queue exactly when its one write was a creation or an
    update of a dependent that succeeded, and for a re-queue after 30
    seconds exactly when its one write was a status update that succeeded;
    it returns an error exactly when its last operation failed, with that
    error and the empty result; and it returns the empty result without
    error exactly when all it did was to read that the WebApp is gone. *)
Theorem directive_tells_what_was_done {St : Type} `{Client St}
    (req : ctrl.Request) (w : World St) (r : ctrl.Result) (e : option error) :
  (Reconcile req w).1 = Done (r, e) →
  ∃ tr,
    calls (Reconcile req w).2 = calls w ++ tr ∧
    (ctrl.Requeue r = true ↔
     ∃ c, writes tr = [ {| ev_call := c; ev_err := None |} ] ∧
          is_dependent_write c = true) ∧
    (ctrl.RequeueAfter r = 30 * Second ↔
     ∃ c, writes tr = [ {| ev_call := c; ev_err := None |} ] ∧
          is_status_write c = true) ∧
    (ctrl.RequeueAfter r = 30 * Second ∨ ctrl.RequeueAfter r = 0) ∧
    (∀ err, e = Some err ↔ ∃ ev, last tr = Some ev ∧ failure ev = Some err) ∧
    (is_Some e → r = {| ctrl.Requeue := false; ctrl.RequeueAfter := 0 |}) ∧
    (e = None ∧ r = {| ctrl.Requeue := false; ctrl.RequeueAfter := 0 |} ↔
     ∃ err, errors.IsNotFound err = true ∧
            tr = [ {| ev_call := CallGet KWebApp (ctrl.NamespacedName req);
                      ev_err := Some err |} ]).
Proof.
  destruct (Reconcile req w) as [out w'] eqn:E. cbn [fst snd]. intros ->.
  apply reconciles_complete, reconciles_trace in E as (tr & Htr & Hr).
  exists tr. split; [done|]. clear Htr.
  change (30 * Second) with 30000000000.
  inversion Hr; subst; clear Hr; cbn [calls log app];
    repeat match goal with
           | E : after_write ?e _ = Done _ |- _ =>
               destruct e; cbn [after_write] in E
           | E : Done _ = Done _ |- _ => injection E as <- <-
           end.
  all: cbn [writes List.filter is_write ev_call ctrl.Requeue ctrl.RequeueAfter
            last].
  all: unfold failure; cbn [ev_call ev_err].
  all: try match goal with
           | NF : errors.IsNotFound ?err = _ |- _ => rewrite ?NF
           end.
  all: try (destruct (errors.IsNotFound err) eqn:NF).
  all: repeat split; intros; simplify_eq/=; try done.
  all: try (by left). all: try (by right).
  all: try (eexists; split; [reflexivity|]; cbn; rewrite ?NF; done).
  all: try (eexists; split; [done|]; reflexivity).
  all: repeat match goal with
              | Hx : ∃ _, _ |- _ => destruct Hx as [? Hx]
              | Hx : _ ∧ _ |- _ => destruct Hx as [? ?]
              end;
       simplify_eq/=; rewrite ?NF in *; by simplify_eq.
Qed.

Lemma directive_tells_what_was_done_witness :
  ∃ c, writes (calls (pass nginx_req 10 cluster0).2) =
         [ {| ev_call := c; ev_err := None |} ] ∧
       is_dependent_write c = true.
Proof.
  destruct (directive_tells_what_was_done nginx_req
              {| api := cluster0; clock := 10; calls := [] |}
              {| ctrl.Requeue := true; ctrl.RequeueAfter := 0 |} None)
    as (tr & Htr & Hreq & _).
  - vm_compute. reflexivity.
  - unfold pass. rewrite Htr. apply Hreq. reflexivity.
Defined.

(** ** One pass, against the cluster, whatever goes wrong *)

Lemma next_fault_maps c f c' :
  next_fault c = (f, c') →
  webapps c' = webapps c ∧ deployments c' = deployments c ∧
  services c' = services c.
Proof. unfold next_fault. by destruct (faults c); intros [= <- <-]. Qed.

(** A read that succeeds returns what is stored. *)
Lemma GetWebApp_Got key c w c' :
  GetWebApp key c = (Got w, c') → webapps c !! key = Some w.
Proof.
  cbn. unfold cluster_get, lookup_obj.
  destruct (next_fault c) as [f c1] eqn:F. apply next_fault_maps in F as (E&_&_).
  rewrite E. by repeat case_match; intros; simplify_eq.
Qed.

Lemma GetDeployment_Got key c d c' :
  GetDeployment key c = (Got d, c') → deployments c !! key = Some d.
Proof.
  cbn. unfold cluster_get, lookup_obj.
  destruct (next_fault c) as [f c1] eqn:F. apply next_fault_maps in F as (_&E&_).
  rewrite E. by repeat case_match; intros; simplify_eq.
Qed.

Lemma GetService_Got key c s c' :
  GetService key c = (Got s, c') → services c !! key = Some s.
Proof.
  cbn. unfold cluster_get, lookup_obj.
  destruct (next_fault c) as [f c1] eqn:F. apply next_fault_maps in F as (_&_&E).
  rewrite E. by repeat case_match; intros; simplify_eq.
Qed.

(** What each write of the reconciler does to the cluster. *)
Lemma Create_deployment_effect d c e c' :
  Create (ObjDeployment d) c = (e, c') →
  webapps c' = webapps c ∧ services c' = services c ∧
  ((e = None ∧ deployments c !! meta_key (appsv1.ObjectMeta d) = None ∧
    deployments c' = <[meta_key (appsv1.ObjectMeta d) := d]> (deployments c)) ∨
   (is_Some e ∧ deployments c' = deployments c)).
Proof.
  cbn. unfold cluster_write, store_create.
  destruct (next_fault c) as [f c1] eqn:F.
  apply next_fault_maps in F as (E1&E2&E3). rewrite <- E1, <- E2, <- E3.
  repeat case_match; intros; simplify_eq/=; naive_solver.
Qed.

Lemma Create_service_effect s c e c' :
  Create (ObjService s) c = (e, c') →
  webapps c' = webapps c ∧ deployments c' = deployments c ∧
  ((e = None ∧ services c !! meta_key (corev1.ObjectMeta s) = None ∧
    services c' = <[meta_key (corev1.ObjectMeta s) := s]> (services c)) ∨
   (is_Some e ∧ services c' = services c)).
Proof.
  cbn. unfold cluster_write, store_create.
  destruct (next_fault c) as [f c1] eqn:F.
  apply next_fault_maps in F as (E1&E2&E3). rewrite <- E1, <- E2, <- E3.
  repeat case_match; intros; simplify_eq/=; naive_solver.
Qed.

Lemma Update_deployment_effect d c e c' :
  Update (ObjDeployment d) c = (e, c') →
  webapps c' = webapps c ∧ services c' = services c ∧
  ((e = None ∧
    ∃ old, deployments c !! meta_key (appsv1.ObjectMeta d) = Some old ∧
           deployments c' =
             <[meta_key (appsv1.ObjectMeta d) :=
                 {| appsv1.ObjectMeta := appsv1.ObjectMeta d;
                    appsv1.Spec := appsv1.Spec d;
                    appsv1.Status := appsv1.Status old |}]> (deployments c)) ∨
   (is_Some e ∧ deployments c' = deployments c)).
Proof.
  cbn. unfold cluster_write, store_update.
  destruct (next_fault c) as [f c1] eqn:F.
  apply next_fault_maps in F as (E1&E2&E3). rewrite <- E1, <- E2, <- E3.
  repeat case_match; intros; simplify_eq/=; naive_solver.
Qed.

Lemma StatusUpdate_webapp_effect w c e c' :
  StatusUpdate (ObjWebApp w) c = (e, c') →
  deployments c' = deployments c ∧ services c' = services c ∧
  ((e = None ∧
    ∃ old, webapps c !! webapp_key w = Some old ∧
           webapps c' =
             <[webapp_key w :=
                 {| ObjectMeta := ObjectMeta old; Spec := Spec old;
                    Status := Status w |}]> (webapps c)) ∨
   (is_Some e ∧ webapps c' = webapps c)).
Proof.
  cbn. unfold cluster_write, store_status_update.
  destruct (next_fault c) as [f c1] eqn:F.
  apply next_fault_maps in F as (E1&E2&E3). rewrite <- E1, <- E2, <- E3.
  repeat case_match; intros; simplify_eq/=; naive_solver.
Qed.

(** Turn the store operations of a path into what they did to the maps. *)
Ltac effects :=
  repeat match goal with
         | E : GetWebApp _ _ = _ |- _ =>
             apply cluster_get_objects in E as (?&?&?)
         | E : GetDeployment _ _ = _ |- _ =>
             apply cluster_get_objects in E as (?&?&?)
         | E : GetService _ _ = _ |- _ =>
             apply cluster_get_objects in E as (?&?&?)
         | E : Create (ObjDeployment _) _ = _ |- _ =>
             apply Create_deployment_effect in E as (?&?&[(?&?&?)|(?&?)])
         | E : Create (ObjService _) _ = _ |- _ =>
             apply Create_service_effect in E as (?&?&[(?&?&?)|(?&?)])
         | E : Update (ObjDeployment _) _ = _ |- _ =>
             apply Update_deployment_effect in E as (?&?&[(?&?&?&?)|(?&?)])
         | E : StatusUpdate (ObjWebApp _) _ = _ |- _ =>
             apply StatusUpdate_webapp_effect in E as (?&?&[(?&?&?&?)|(?&?)])
         end.

(** X6. No pass, whatever the cluster holds and whatever fails, changes the
    metadata or the spec of a WebApp, adds a WebApp or removes one: the
    operator writes nothing but the status. *)
Theorem spec_is_never_written (req : ctrl.Request) (t : Time) (c : Cluster)
    (key : types.NamespacedName) :
  ObjectMeta <$> webapps (api (pass req t c).2) !! key
    = ObjectMeta <$> webapps c !! key ∧
  Spec <$> webapps (api (pass req t c).2) !! key = Spec <$> webapps c !! key.
Proof.
  destruct (pass req t c) as [out w'] eqn:E. cbn [snd].
  apply reconciles_complete in E.
  inversion E; subst; cbn [api log clock] in *; effects;
    repeat match goal with
           | E : webapps _ = _ |- _ => rewrite E; clear E
           | E : _ = webapps _ |- _ => rewrite <- E; clear E
           end; try done.
  destruct (decide (webapp_key (observed webapp deployment t) = key)) as [<-|Hne].
  - rewrite lookup_insert_eq.
    match goal with Hx : webapps _ !! _ = Some _ |- _ => cbn [clock] in Hx; by rewrite Hx end.
  - by rewrite lookup_insert_ne.
Qed.

(** X7. No pass, whatever the cluster holds and whatever fails, removes or
    rewrites a Service, or removes a Deployment: every Service stored before
    the pass is stored unchanged after it, and every name that had a
    Deployment still has one. *)
Theorem dependents_are_never_removed (req : ctrl.Request) (t : Time)
    (c : Cluster) :
  services c ⊆ services (api (pass req t c).2) ∧
  dom (deployments c) ⊆ dom (deployments (api (pass req t c).2)).
Proof.
  destruct (pass req t c) as [out w'] eqn:E. cbn [snd].
  apply reconciles_complete in E.
  inversion E; subst; cbn [api log clock] in *; effects.
  all: match goal with
       | |- services ?a ⊆ services ?b ∧ _ =>
           first [ assert (services b = services a) as -> by congruence
                 | match goal with
                   | Hi : services b = <[?k := ?s]> (services ?m),
                     Hn : services ?m !! ?k = None |- _ =>
                       assert (services m = services a) as Ea by congruence;
                       rewrite Hi; rewrite Ea in *
                   end ]
       end.
  all: split; [first [done | by apply insert_subseteq]|].
  all: match goal with
       | |- dom (deployments ?a) ⊆ dom (deployments ?b) =>
           first [ assert (deployments b = deployments a) as -> by congruence
                 | match goal with
                   | Hi : deployments b = <[?k := ?d]> (deployments ?m) |- _ =>
                       assert (deployments m = deployments a) as Ea
                         by congruence;
                       rewrite Hi, Ea, dom_insert_L
                   end ]
       end.
  all: set_solver.
Qed.

(** X8. Only the replica count is held against the spec.  When the stored
    Deployment has the replica count of the spec, no pass writes it,
    whatever its image, ports, environment, labels or selector are and
    whatever fails: the Deployments are after the pass what they were
    before. *)
Theorem other_drift_is_left_alone (req : ctrl.Request) (t : Time)
    (c : Cluster) (webapp : WebApp) (d : appsv1.Deployment) :
  webapps c !! ctrl.NamespacedName req = Some webapp →
  deployments c !! webapp_key webapp = Some d →
  appsv1.Replicas (appsv1.Spec d) = Some (Replicas (Spec webapp)) →
  deployments (api (pass req t c).2) = deployments c ∧
  Forall (λ ev, match ev_call ev with
                | CallCreate (ObjDeployment _) => ev_err ev ≠ None
                | CallUpdate _ => False
                | _ => True
                end) (calls (pass req t c).2).
Proof.
  intros Hw Hd R.
  destruct (pass req t c) as [out w'] eqn:E. cbn [snd].
  apply reconciles_complete in E.
  inversion E; subst; cbn [api log clock calls app] in *;
    repeat match goal with
           | G : GetWebApp _ _ = (Got _, _) |- _ =>
               pose proof (GetWebApp_Got _ _ _ _ G);
               apply cluster_get_objects in G as (?&?&?)
           | G : GetDeployment _ _ = (Got _, _) |- _ =>
               pose proof (GetDeployment_Got _ _ _ _ G);
               apply cluster_get_objects in G as (?&?&?)
           end;
    effects.
  all: repeat match goal with
              | Hx : webapps _ !! _ = Some _ |- _ =>
                  rewrite Hw in Hx; injection Hx as <-
              end.
  all: try (assert (deployments st2 !! webapp_key webapp = Some d) as Hd2
              by (by replace (deployments st2) with (deployments c) by congruence)).
  all: try (assert (deployments st1 !! webapp_key webapp = Some d) as Hd1
              by (by replace (deployments st1) with (deployments c) by congruence)).
  all: try (split; [congruence|by repeat constructor]).
  all: try (split; [congruence|]; repeat constructor; cbn;
            by match goal with Hx : is_Some _ |- _ => destruct Hx as [? ->] end).
  all: try (change (meta_key (appsv1.ObjectMeta (deploymentForWebApp webapp)))
              with (webapp_key webapp) in *).
  all: simplify_eq.
Qed.

Lemma other_drift_is_left_alone_witness :
  containerImages (deploymentForWebApp old_nginx_app) = ["nginx:1.19"] ∧
  Image (Spec nginx_ready) = "nginx:1.25" ∧
  deployments (api (pass nginx_req 200 stale_cluster).2)
    = deployments stale_cluster.
Proof.
  split; [reflexivity|]. split; [reflexivity|].
  apply (other_drift_is_left_alone nginx_req 200 stale_cluster nginx_ready
           (deploymentForWebApp old_nginx_app)).
  - vm_compute. reflexivity.
  - vm_compute. reflexivity.
  - reflexivity.
Defined.

(** X9. A pass that panics has written nothing: the objects of the cluster
    are what they were, and its log holds two reads. *)
Theorem panic_writes_nothing (req : ctrl.Request) (t : Time) (c : Cluster) :
  (pass req t c).1 = Panic →
  same_objects c (api (pass req t c).2) ∧
  writes (calls (pass req t c).2) = [] ∧
  length (calls (pass req t c).2) = 2%nat.
Proof.
  destruct (pass req t c) as [out w'] eqn:E. cbn [fst snd]. intros ->.
  apply reconciles_complete in E.
  inversion E; subst; cbn [api log clock calls app] in *;
    try match goal with
        | P : after_write ?e _ = Panic |- _ => by destruct e
        end.
  split; [|done].
  match goal with
  | G1 : GetWebApp _ _ = _, G2 : GetDeployment _ _ = _ |- _ =>
      apply cluster_get_objects in G1; apply cluster_get_objects in G2
  end.
  eauto using same_objects_trans.
Qed.

Lemma panic_writes_nothing_witness :
  same_objects foreign_cluster (api (pass nginx_req 10 foreign_cluster).2).
Proof.
  apply (panic_writes_nothing nginx_req 10 foreign_cluster). reflexivity.
Defined.

(** ** Passes in a row *)

(** The synthesizers and the key read the metadata and the spec only. *)
Lemma same_meta_spec (w webapp : WebApp) :
  ObjectMeta w = ObjectMeta webapp → Spec w = Spec webapp →
  webapp_key w = webapp_key webapp ∧
  deploymentForWebApp w = deploymentForWebApp webapp ∧
  serviceForWebApp w = serviceForWebApp webapp.
Proof.
  destruct w, webapp; cbn. intros -> ->. done.
Qed.

(** One pass on a reconcilable cluster: it stays reconcilable, and either
    something was pending, one thing less is, and the pass asks to be run
    again at once; or nothing was, nothing is, and the pass asks to be run
    again in 30 seconds. *)
Lemma pass_progress (req : ctrl.Request) (t : Time) (c : Cluster)
    (webapp : WebApp) :
  ctrl.NamespacedName req = webapp_key webapp →
  reconcilable c webapp →
  reconcilable (api (pass req t c).2) webapp ∧
  ((pending c (webapp_key webapp) (Replicas (Spec webapp)) =
      S (pending (api (pass req t c).2) (webapp_key webapp)
           (Replicas (Spec webapp))) ∧
    (pass req t c).1 =
      Done ({| ctrl.Requeue := true; ctrl.RequeueAfter := 0 |}, None)) ∨
   (pending c (webapp_key webapp) (Replicas (Spec webapp)) = 0%nat ∧
    pending (api (pass req t c).2) (webapp_key webapp) (Replicas (Spec webapp))
      = 0%nat ∧
    (pass req t c).1 =
      Done ({| ctrl.Requeue := false; ctrl.RequeueAfter := 30 * Second |},
            None))).
Proof.
  intros Hk (Hf & (w & Hw & Hm & Hs) & Hwf).
  destruct (same_meta_spec w webapp Hm Hs) as (Ek & Ed & Es).
  assert (webapps c !! ctrl.NamespacedName req = Some w) as Hw' by by rewrite Hk.
  unfold pending, reconcilable.
  destruct (deployments c !! webapp_key webapp) as [d|] eqn:Hd.
  - destruct (Hwf d eq_refl) as [Hdk [n R]].
    destruct (decide (appsv1.Replicas (appsv1.Spec d)
                      = Some (Replicas (Spec webapp)))) as [R'|Hn].
    + destruct (services c !! webapp_key webapp) as [s|] eqn:Hsv.
      * rewrite <- Ek in Hd, Hsv. rewrite <- Hs in R'.
        rewrite (pass_update_status req t c w Hf Hw' d s
                   (eq_trans Ek (eq_sym Hk)) Hd R' Hsv).
        cbn [fst snd api]. unfold set_webapps. cbn [webapps deployments services faults].
        rewrite Ek in *. rewrite Hd, Hsv.
        rewrite decide_True by by rewrite <- Hs.
        split; [|right; done].
        split; [done|]. split.
        -- eexists. rewrite lookup_insert_eq. split; [reflexivity|done].
        -- intros d'; rewrite ?Hd, ?lookup_insert_eq; intros [= <-]; cbn; eauto.
      * rewrite <- Ek in Hd, Hsv. rewrite <- Hs in R'.
        rewrite (pass_create_service req t c w Hf Hw' d Hd R' Hsv).
        cbn [fst snd api]. unfold set_services. cbn [webapps deployments services faults].
        rewrite Ek in *. rewrite Hd, lookup_insert_eq.
        rewrite decide_True by by rewrite <- Hs.
        split; [|left; done].
        split; [done|]. split; [by eauto|].
        intros d'; rewrite ?Hd, ?lookup_insert_eq; intros [= <-]; cbn; eauto.
    + assert (n ≠ Replicas (Spec w)) as Hn' by (rewrite Hs; congruence).
      rewrite <- Ek in Hd, Hdk.
      rewrite (pass_update_replicas req t c w Hf Hw' d n Hd Hdk R Hn').
      cbn [fst snd api]. unfold set_deployments. cbn [webapps deployments services faults].
      rewrite Ek in *. rewrite lookup_insert_eq. cbn [scaled appsv1.Spec appsv1.Replicas].
      rewrite decide_True by by rewrite Hs.
      split; [|left; done].
      split; [done|]. split; [by eauto|].
      intros d'; rewrite ?Hd, ?lookup_insert_eq; intros [= <-]; cbn; eauto.
  - rewrite <- Ek in Hd.
    rewrite (pass_create_deployment req t c w Hf Hw' Hd).
    cbn [fst snd api]. unfold set_deployments. cbn [webapps deployments services faults].
    rewrite Ek, Ed in *. rewrite lookup_insert_eq.
    cbn [deploymentForWebApp appsv1.Spec appsv1.Replicas].
    rewrite decide_True by done.
    split; [|left; done].
    split; [done|]. split; [by eauto|].
    intros d'; rewrite ?Hd, ?lookup_insert_eq; intros [= <-]; cbn; eauto.
Qed.

Lemma pending_le_2 c key r : (pending c key r ≤ 2)%nat.
Proof. unfold pending. repeat case_match; lia. Qed.

Lemma nothing_pending_converged c webapp :
  reconcilable c webapp →
  pending c (webapp_key webapp) (Replicas (Spec webapp)) = 0%nat →
  ∃ webapp', converged c webapp' ∧
             ObjectMeta webapp' = ObjectMeta webapp ∧
             Spec webapp' = Spec webapp.
Proof.
  intros (_ & (w & Hw & Hm & Hs) & _) Hp. exists w.
  destruct (same_meta_spec w webapp Hm Hs) as (Ek & _ & _).
  split; [|done]. unfold converged. rewrite Ek, Hs. unfold pending in Hp.
  destruct (deployments c !! webapp_key webapp) as [d|]; [|lia].
  destruct (decide _) as [R|]; [|lia].
  destruct (services c !! webapp_key webapp) as [s|]; [|lia].
  eauto 10.
Qed.

(** X10. Whatever state the dependents are in, three passes heal it.  From
    a cluster that holds the WebApp under its name, and whose Deployment,
    if any, carries its own name and some replica count, three passes in a
    row return no error, the third returns the re-queue after 30 seconds,
    and the cluster is then converged for a WebApp with the metadata and
    spec of the original. *)
Theorem heals_in_three_passes (req : ctrl.Request) (t1 t2 t3 : Time)
    (c : Cluster) (webapp : WebApp) :
  ctrl.NamespacedName req = webapp_key webapp →
  reconcilable c webapp →
  let p1 := pass req t1 c in
  let p2 := pass req t2 (api p1.2) in
  let p3 := pass req t3 (api p2.2) in
  (∃ r1, p1.1 = Done (r1, None)) ∧
  (∃ r2, p2.1 = Done (r2, None)) ∧
  p3.1 =
    Done ({| ctrl.Requeue := false; ctrl.RequeueAfter := 30 * Second |}, None) ∧
  ∃ webapp', converged (api p3.2) webapp' ∧
             ObjectMeta webapp' = ObjectMeta webapp ∧
             Spec webapp' = Spec webapp.
Proof.
  intros Hk H0 p1 p2 p3. subst p3 p2 p1.
  pose proof (pending_le_2 c (webapp_key webapp) (Replicas (Spec webapp))) as Hle.
  destruct (pass_progress req t1 c webapp Hk H0) as [H1 P1].
  destruct (pass_progress req t2 _ webapp Hk H1) as [H2 P2].
  destruct (pass_progress req t3 _ webapp Hk H2) as [H3 P3].
  assert (pending (api (pass req t2 (api (pass req t1 c).2)).2)
            (webapp_key webapp) (Replicas (Spec webapp)) = 0%nat) as Hz
    by (destruct P1 as [[? _]|(?&?&_)], P2 as [[? _]|(?&?&_)]; lia).
  destruct P3 as [[? _]|(_ & Hz3 & ->)]; [lia|].
  split; [destruct P1 as [[_ ->]|(_&_&->)]; by eauto|].
  split; [destruct P2 as [[_ ->]|(_&_&->)]; by eauto|].
  split; [done|]. by apply nothing_pending_converged.
Qed.

Lemma heals_in_three_passes_witness :
  let p1 := pass nginx_req 10 (delete_deployment nginx_key converged_cluster) in
  let p2 := pass nginx_req 11 (api p1.2) in
  let p3 := pass nginx_req 12 (api p2.2) in
  p3.1 =
    Done ({| ctrl.Requeue := false; ctrl.RequeueAfter := 30 * Second |}, None).
Proof.
  destruct (heals_in_three_passes nginx_req 10 11 12
              (delete_deployment nginx_key converged_cluster) nginx_app)
    as (_ & _ & H3 & _).
  - reflexivity.
  - split; [reflexivity|]. split.
    + exists nginx_ready. split; [vm_compute; reflexivity|]. split; reflexivity.
    + intros d Hd. vm_compute in Hd. discriminate Hd.
  - exact H3.
Defined.

(** X11. On a converged cluster passes collapse: a pass followed by a pass
    at time [t'] leaves the cluster exactly as the pass at time [t'] alone
    would, so that two passes at the same time do what one does; and the
    cluster stays converged after every pass. *)
Theorem converged_passes_collapse (req : ctrl.Request) (t t' : Time)
    (c : Cluster) (webapp : WebApp) :
  faults c = [] →
  ctrl.NamespacedName req = webapp_key webapp →
  converged c webapp →
  api (pass req t' (api (pass req t c).2)).2 = api (pass req t' c).2 ∧
  ∃ webapp', converged (api (pass req t c).2) webapp' ∧
             ObjectMeta webapp' = ObjectMeta webapp ∧
             Spec webapp' = Spec webapp.
Proof.
  intros Hf Hk (Hw & (d & Hd & R) & (s & Hs)).
  rewrite <- Hk in Hw.
  rewrite !(pass_update_status req _ c webapp Hf Hw d s (eq_sym Hk) Hd R Hs).
  cbn [snd api].
  set (c1 := set_webapps _ c).
  assert (webapps c1 !! ctrl.NamespacedName req = Some (observed webapp d t))
    as Hw1 by (rewrite Hk; apply lookup_insert_eq).
  rewrite (pass_update_status req t' c1 (observed webapp d t) Hf Hw1 d s
             (eq_sym Hk) Hd R Hs).
  cbn [snd api]. split.
  - subst c1. unfold set_webapps. cbn [webapps deployments services faults].
    change (webapp_key (observed webapp d t)) with (webapp_key webapp).
    by rewrite insert_insert_eq.
  - exists (observed webapp d t). split; [|done].
    split; [apply lookup_insert_eq|]. split; by eauto.
Qed.

Lemma converged_passes_collapse_witness :
  api (pass nginx_req 200 (api (pass nginx_req 200 converged_cluster).2)).2
    = api (pass nginx_req 200 converged_cluster).2.
Proof.
  apply (converged_passes_collapse nginx_req 200 200 converged_cluster
           nginx_ready).
  - reflexivity.
  - reflexivity.
  - split; [vm_compute; reflexivity|]. split.
    + exists (nginx_deployment (Some 3) 3). split; vm_compute; reflexivity.
    + exists (serviceForWebApp nginx_app). vm_compute. reflexivity.
Defined.


(** ** The copy methods *)

Lemma load_store_eq p v h h' :
  store_webapp p v h = Some h' → load_webapp p h' = Some v.
Proof.
  destruct p as [|l|a i]; cbn; [done| |].
  - destruct (webapp_cells h !! l); intros [= <-]; cbn. apply lookup_insert_eq.
  - destruct (webapp_arrays h !! a) as [arr|]; [|done].
    case_decide; intros [= <-]; cbn. rewrite lookup_insert_eq.
    by apply list_lookup_insert_eq.
Qed.

Lemma load_store_ne p q v h h' :
  p ≠ q → store_webapp p v h = Some h' → load_webapp q h' = load_webapp q h.
Proof.
  intros Hne. destruct p as [|l|a i]; cbn; [done| |].
  - destruct (webapp_cells h !! l); intros [= <-]; try done.
    destruct q as [|l'|a' i']; cbn; try done.
    apply lookup_insert_ne. congruence.
  - destruct (webapp_arrays h !! a) as [arr|] eqn:Ha; [|done].
    case_decide; intros [= <-]; try done.
    destruct q as [|l'|a' i']; cbn; try done.
    destruct (decide (a = a')) as [<-|Hn].
    + rewrite lookup_insert_eq, Ha. apply list_lookup_insert_ne. congruence.
    + by rewrite lookup_insert_ne.
Qed.

Lemma store_store p v v' h h1 :
  store_webapp p v h = Some h1 → store_webapp p v' h1 = store_webapp p v' h.
Proof.
  destruct p as [|l|a i]; cbn; [done| |].
  - destruct (webapp_cells h !! l) eqn:E; intros [= <-]; cbn.
    by rewrite lookup_insert_eq, insert_insert_eq.
  - destruct (webapp_arrays h !! a) as [arr|] eqn:Ha; [|done].
    case_decide; intros [= <-]; cbn.
    rewrite lookup_insert_eq, length_insert, insert_insert_eq.
    rewrite decide_True by done. by rewrite list_insert_insert_eq.
Qed.

(** Into a target other than its source, [DeepCopyInto] does what the one
    assignment [*out = *w] does. *)
Lemma WebApp_DeepCopyInto_store w out v h h' :
  w ≠ out →
  load_webapp w h = Some v →
  store_webapp out v h = Some h' →
  WebApp_DeepCopyInto w out h = Done (tt, h').
Proof.
  intros Hne Hw Hs.
  assert (load_webapp w h' = Some v) as Hw'
    by by rewrite (load_store_ne _ _ _ _ _ (not_eq_sym Hne) Hs).
  pose proof (load_store_eq _ _ _ _ Hs) as Ho.
  pose proof (store_store _ _ v _ _ Hs) as Hss. rewrite Hs in Hss.
  unfold WebApp_DeepCopyInto, mem_bind, load, store.
  rewrite Hw, Hs, Hw', Ho.
  destruct v as [tm om sp st]; cbn [m_TypeMeta m_ObjectMeta m_Spec m_Status].
  repeat (first [rewrite Hss | rewrite Hw' | rewrite Ho];
          cbn [m_TypeMeta m_ObjectMeta m_Spec m_Status]).
  done.
Qed.

Lemma fresh_cell (h : Heap) :
  webapp_cells h !! fresh (dom (webapp_cells h)) = None.
Proof. apply not_elem_of_dom, is_fresh. Qed.

(** What [DeepCopy] computes on a pointer that can be read. *)
Lemma WebApp_DeepCopy_result w v h :
  load_webapp w h = Some v →
  WebApp_DeepCopy w h =
    Done (WCell (fresh (dom (webapp_cells h))),
          set_webapp_cells
            (<[fresh (dom (webapp_cells h)) := v]> (webapp_cells h)) h).
Proof.
  intros Hw. pose proof (fresh_cell h) as Hl.
  set (l := fresh (dom (webapp_cells h))) in *.
  assert (w ≠ WCell l) as Hne by (intros ->; cbn in Hw; congruence).
  set (h0 := set_webapp_cells (<[l := zero_WebApp]> (webapp_cells h)) h).
  assert (load_webapp w h0 = Some v) as Hw0.
  { destruct w as [|l0|a i]; [done| |done]. cbn in *.
    rewrite lookup_insert_ne; [done|congruence]. }
  assert (store_webapp (WCell l) v h0 =
            Some (set_webapp_cells (<[l := v]> (webapp_cells h)) h)) as Hs.
  { cbn. rewrite lookup_insert_eq. unfold set_webapp_cells. cbn.
    by rewrite insert_insert_eq. }
  assert (WebApp_DeepCopy w h =
            mem_bind new_WebApp
              (λ out, mem_bind (WebApp_DeepCopyInto w out) (λ _, mem_ret out)) h)
    as -> by by destruct w.
  unfold mem_bind at 1. unfold new_WebApp. fold l. fold h0.
  unfold mem_bind. by rewrite (WebApp_DeepCopyInto_store w (WCell l) v h0 _ Hne Hw0 Hs).
Qed.

(** X12. [DeepCopy] of a WebApp that can be read returns a pointer to a
    struct that was not there before and now holds what the original
    holds: the copy reads as the same WebApp, the original and every other
    struct read as before, and no backing array is touched. *)
Theorem WebApp_DeepCopy_copies (w : WebAppPtr) (v : WebAppCell) (h : Heap) :
  load_webapp w h = Some v →
  ∃ q h',
    WebApp_DeepCopy w h = Done (q, h') ∧
    load_webapp q h = None ∧
    load_webapp q h' = Some v ∧
    (∀ p, p ≠ q → load_webapp p h' = load_webapp p h) ∧
    env_arrays h' = env_arrays h ∧
    cond_arrays h' = cond_arrays h ∧
    webapp_arrays h' = webapp_arrays h ∧
    list_cells h' = list_cells h ∧
    read_webapp h' q = read_webapp h w ∧
    read_webapp h' w = read_webapp h w.
Proof.
  intros Hw. rewrite (WebApp_DeepCopy_result w v h Hw).
  pose proof (fresh_cell h) as Hl.
  set (l := fresh (dom (webapp_cells h))) in *.
  assert (∀ p, p ≠ WCell l →
               load_webapp p (set_webapp_cells (<[l := v]> (webapp_cells h)) h)
               = load_webapp p h) as Hother.
  { intros [|l0|a i] Hne; [done| |done]. cbn.
    rewrite lookup_insert_ne; [done|congruence]. }
  do 2 eexists. split; [reflexivity|]. split; [done|].
  split; [cbn; apply lookup_insert_eq|]. split; [done|].
  do 4 (split; [done|]).
  unfold read_webapp. split.
  - cbn [load_webapp set_webapp_cells webapp_cells].
    by rewrite lookup_insert_eq, Hw.
  - rewrite Hother, Hw; [done|]. intros ->. cbn in Hw. congruence.
Qed.

Lemma WebApp_DeepCopy_copies_witness :
  ∃ q h', WebApp_DeepCopy (WCell 1%positive) app_heap = Done (q, h') ∧
          read_webapp h' q = read_webapp app_heap (WCell 1%positive).
Proof.
  destruct (WebApp_DeepCopy_copies (WCell 1%positive) app_cell app_heap)
    as (q & h' & Hc & _ & _ & _ & _ & _ & _ & _ & Hr & _).
  - reflexivity.
  - exists q, h'. split; [exact Hc|exact Hr].
Defined.

Lemma read_slice_insert {A} (arrays : gmap loc (list A)) a off len cap arr i x :
  arrays !! a = Some arr →
  (off + len ≤ length arr)%nat →
  (i < len)%nat →
  read_slice (<[a := <[(off + i)%nat := x]> arr]> arrays) (SArr a off len cap)
    = Some (<[i := x]> (take len (drop off arr))).
Proof.
  intros Ha Hlen Hi. cbn. rewrite lookup_insert_eq, length_insert.
  rewrite decide_True by done. f_equal.
  rewrite drop_insert_ge by lia.
  replace (off + i - off)%nat with i by lia.
  by rewrite take_insert_lt.
Qed.

(** X13. The copy is not deep for the environment: [DeepCopyInto] copies
    the slice header of [Spec.Env], so copy and original look at the same
    backing array, and an entry assigned through the copy is the entry the
    original reads afterwards. *)
Theorem copy_shares_environment (w : WebAppPtr) (h : Heap) (app : WebApp)
    (i : nat) (e : EnvVar) :
  read_webapp h w = Some app →
  (i < length (Env (Spec app)))%nat →
  ∃ q h1 h2,
    WebApp_DeepCopy w h = Done (q, h1) ∧
    q ≠ w ∧
    assign_env q i e h1 = Done (tt, h2) ∧
    read_webapp h2 w =
      Some {| ObjectMeta := ObjectMeta app;
              Spec := {| Image := Image (Spec app);
                         Replicas := Replicas (Spec app);
                         Port := Port (Spec app);
                         Env := <[i := e]> (Env (Spec app)) |};
              Status := Status app |}.
Proof.
  unfold read_webapp. destruct (load_webapp w h) as [v|] eqn:Hw; [|done].
  unfold read_cell.
  destruct (read_slice (env_arrays h) (m_Env (m_Spec v))) as [env|] eqn:He;
    [|done].
  destruct (read_slice (cond_arrays h) (m_Conditions (m_Status v)))
    as [conds|] eqn:Hc; [|done].
  intros [= <-]. cbn [Spec Env]. intros Hi.
  destruct (m_Env (m_Spec v)) as [|a off len cap] eqn:Hs;
    [cbn in He; injection He as <-; cbn in Hi; lia|].
  cbn in He. destruct (env_arrays h !! a) as [arr|] eqn:Ha; [|done].
  case_decide as Hlen; [|done]. injection He as <-.
  rewrite length_take, length_drop in Hi.
  rewrite (WebApp_DeepCopy_result w v h Hw).
  pose proof (fresh_cell h) as Hl.
  set (l := fresh (dom (webapp_cells h))) in *.
  set (h1 := set_webapp_cells _ h).
  assert (w ≠ WCell l) as Hne by (intros ->; cbn in Hw; congruence).
  assert (load_webapp w h1 = Some v) as Hw1.
  { destruct w as [|l0|a0 i0]; [done| |done]. cbn in *.
    rewrite lookup_insert_ne; [done|congruence]. }
  exists (WCell l), h1. eexists. split; [done|]. split; [done|]. split.
  - unfold assign_env, mem_bind, load.
    assert (load_webapp (WCell l) h1 = Some v) as -> by apply lookup_insert_eq.
    rewrite Hs. change (env_arrays h1) with (env_arrays h). rewrite Ha.
    rewrite decide_True by lia. reflexivity.
  - change (load_webapp w (set_env_arrays _ h1)) with (load_webapp w h1).
    rewrite Hw1, Hs. cbn [set_env_arrays env_arrays cond_arrays].
    change (env_arrays h1) with (env_arrays h).
    change (cond_arrays h1) with (cond_arrays h).
    rewrite (read_slice_insert _ a off len cap arr i e Ha Hlen) by lia.
    by rewrite Hc.
Qed.

Lemma copy_shares_environment_witness :
  ∃ q h1 h2,
    WebApp_DeepCopy (WCell 1%positive) app_heap = Done (q, h1) ∧
    assign_env q 0 {| env_Name := "MODE"; env_Value := "debug" |} h1
      = Done (tt, h2) ∧
    fmap (λ a, Env (Spec a)) (read_webapp h2 (WCell 1%positive)) =
      Some [ {| env_Name := "MODE"; env_Value := "debug" |};
             {| env_Name := "LEVEL"; env_Value := "info" |} ].
Proof.
  destruct (copy_shares_environment (WCell 1%positive) app_heap
              {| ObjectMeta := ObjectMeta nginx_app;
                 Spec := {| Image := "nginx:1.25"; Replicas := 3; Port := 80;
                            Env := [ {| env_Name := "MODE"; env_Value := "prod" |};
                                     {| env_Name := "LEVEL";
                                        env_Value := "info" |} ] |};
                 Status := Status nginx_app |}
              0 {| env_Name := "MODE"; env_Value := "debug" |})
    as (q & h1 & h2 & Hc & _ & Ha & Hr).
  - vm_compute. reflexivity.
  - cbn. lia.
  - exists q, h1, h2. split; [exact Hc|]. split; [exact Ha|].
    rewrite Hr. reflexivity.
Defined.

(** X14. The nil cases.  [DeepCopy] of a nil pointer is nil, for a WebApp
    and for a list, and leaves the heap alone; [DeepCopyObject] of a nil
    WebApp pointer wraps that nil pointer in an interface, which is not the
    nil interface; [DeepCopyInto] panics on a nil receiver and on a nil
    target. *)
Theorem copies_of_nil (h : Heap) (w out : WebAppPtr) (l : WebAppListPtr) :
  WebApp_DeepCopy WNil h = Done (WNil, h) ∧
  WebAppList_DeepCopy LNil h = Done (LNil, h) ∧
  WebApp_DeepCopyObject WNil h = Done (WebAppObject WNil, h) ∧
  WebAppObject WNil ≠ NilObject ∧
  WebAppList_DeepCopyObject LNil h = Done (WebAppListObject LNil, h) ∧
  WebApp_DeepCopyInto WNil out h = Panic ∧
  WebApp_DeepCopyInto w WNil h = Panic ∧
  WebAppList_DeepCopyInto LNil l h = Panic ∧
  WebAppList_DeepCopyInto l LNil h = Panic.
Proof.
  repeat split; try done.
  - unfold WebApp_DeepCopyInto, mem_bind, load.
    by destruct (load_webapp w h).
  - unfold WebAppList_DeepCopyInto, mem_bind, load_list.
    destruct l as [|l0]; [done|]. by destruct (list_cells h !! l0).
Qed.


Lemma set_webapp_arrays_twice m m' h :
  set_webapp_arrays m (set_webapp_arrays m' h) = set_webapp_arrays m h.
Proof. done. Qed.

(** The loop copies element after element into the new array. *)
Lemma copy_items_spec (l l' : loc) (v o : WebAppListCell) (a a' : loc)
    (off n cap : nat) (arr : list WebAppCell) :
  l_Items v = SArr a off n cap →
  l_Items o = SArr a' 0 n n →
  a ≠ a' →
  (off + n ≤ length arr)%nat →
  ∀ (k i : nat) (dst : list WebAppCell) (h : Heap),
    (i + k = n)%nat →
    list_cells h !! l = Some v →
    list_cells h !! l' = Some o →
    webapp_arrays h !! a = Some arr →
    webapp_arrays h !! a' = Some dst →
    length dst = n →
    copy_items (LCell l) (LCell l') i k h =
      Done (tt, set_webapp_arrays
                  (<[a' := take i dst ++ take k (drop (off + i) arr)]>
                     (webapp_arrays h)) h).
Proof.
  intros Hv Ho Hne Hlen. induction k as [|k IH]; intros i dst h Hik Hl Hl' Ha Ha' Hd.
  - cbn [copy_items take]. rewrite app_nil_r, firstn_all2 by lia.
    rewrite insert_id by done. by destruct h.
  - cbn [copy_items]. unfold mem_bind at 1. unfold load_list at 1. rewrite Hl.
    unfold mem_bind at 1. unfold index at 1. rewrite Hv.
    rewrite decide_True by lia.
    unfold mem_bind at 1. unfold load_list at 1. rewrite Hl'.
    unfold mem_bind at 1. unfold index at 1. rewrite Ho.
    rewrite decide_True by lia. cbn [Nat.add].
    destruct (lookup_lt_is_Some_2 arr (off + i)) as [x Hx]; [lia|].
    set (h1 := set_webapp_arrays (<[a' := <[i := x]> dst]> (webapp_arrays h)) h).
    unfold mem_bind at 1.
    rewrite (WebApp_DeepCopyInto_store (WElem a (off + i)) (WElem a' i) x h h1).
    + rewrite (IH (S i) (<[i := x]> dst) h1); try done.
      * subst h1. rewrite set_webapp_arrays_twice. cbn [set_webapp_arrays webapp_arrays].
        rewrite insert_insert_eq.
        replace (off + S i)%nat with (S (off + i)) by lia.
        rewrite (take_S_r _ i x) by (apply list_lookup_insert_eq; lia).
        rewrite take_insert_ge by lia.
        rewrite (drop_S arr x (off + i)) by done. cbn [take].
        by rewrite <- app_assoc.
      * lia.
      * cbn. by rewrite lookup_insert_ne.
      * cbn. by rewrite lookup_insert_eq.
      * by rewrite length_insert.
    + congruence.
    + cbn. by rewrite Ha.
    + cbn. rewrite Ha'. by rewrite decide_True by lia.
Qed.

Lemma fresh_list_cell (h : Heap) :
  list_cells h !! fresh (dom (list_cells h)) = None.
Proof. apply not_elem_of_dom, is_fresh. Qed.

Lemma fresh_array (h : Heap) :
  webapp_arrays h !! fresh (dom (webapp_arrays h)) = None.
Proof. apply not_elem_of_dom, is_fresh. Qed.

Ltac list_steps :=
  repeat (first [ rewrite lookup_insert_eq
                | rewrite lookup_insert_ne by congruence
                | rewrite insert_insert_eq
                | match goal with
                  | E : list_cells _ !! _ = Some _ |- _ => rewrite E
                  end ];
          cbn [list_cells set_list_cells set_webapp_arrays webapp_arrays
               l_TypeMeta l_ListMeta l_Items]).

(** What [DeepCopy] computes on a list without items... *)
Lemma WebAppList_DeepCopy_nil l v h :
  list_cells h !! l = Some v →
  l_Items v = SNil →
  WebAppList_DeepCopy (LCell l) h =
    Done (LCell (fresh (dom (list_cells h))),
          set_list_cells (<[fresh (dom (list_cells h)) := v]> (list_cells h)) h).
Proof.
  intros Hl Hi. pose proof (fresh_list_cell h) as Hf.
  set (l' := fresh (dom (list_cells h))) in *.
  assert (l' ≠ l) as Hne by congruence.
  destruct v as [tm lm items]; cbn in Hi; subst items.
  unfold WebAppList_DeepCopy, WebAppList_DeepCopyInto, mem_bind,
    new_WebAppList, load_list, store_list, mem_ret.
  fold l'. cbn [list_cells set_list_cells]. list_steps. done.
Qed.

(** ...and on a list with items. *)
Lemma WebAppList_DeepCopy_items l v h a off n cap arr :
  list_cells h !! l = Some v →
  l_Items v = SArr a off n cap →
  webapp_arrays h !! a = Some arr →
  (off + n ≤ length arr)%nat →
  WebAppList_DeepCopy (LCell l) h =
    Done (LCell (fresh (dom (list_cells h))),
          {| env_arrays := env_arrays h;
             cond_arrays := cond_arrays h;
             webapp_arrays :=
               <[fresh (dom (webapp_arrays h)) := take n (drop off arr)]>
                 (webapp_arrays h);
             webapp_cells := webapp_cells h;
             list_cells :=
               <[fresh (dom (list_cells h)) :=
                   {| l_TypeMeta := l_TypeMeta v;
                      l_ListMeta := l_ListMeta v;
                      l_Items := SArr (fresh (dom (webapp_arrays h))) 0 n n |}]>
                 (list_cells h) |}).
Proof.
  intros Hl Hi Ha Hlen.
  pose proof (fresh_list_cell h) as Hf. pose proof (fresh_array h) as Hfa.
  set (l' := fresh (dom (list_cells h))) in *.
  set (a' := fresh (dom (webapp_arrays h))) in *.
  assert (l' ≠ l) as Hne by congruence.
  assert (a ≠ a') as Hna by congruence.
  destruct v as [tm lm items]; cbn in Hi; subst items.
  unfold WebAppList_DeepCopy, WebAppList_DeepCopyInto, mem_bind,
    new_WebAppList, load_list, store_list, make_WebApps, mem_ret.
  fold l'. cbn [list_cells set_list_cells]. list_steps.
  fold a'. list_steps. cbn [slice_len].
  set (h2 := set_list_cells _ _).
  rewrite (copy_items_spec l l'
             {| l_TypeMeta := tm; l_ListMeta := lm; l_Items := SArr a off n cap |}
             {| l_TypeMeta := tm; l_ListMeta := lm; l_Items := SArr a' 0 n n |}
             a a' off n cap arr eq_refl eq_refl Hna Hlen
             n 0 (replicate n zero_WebApp) h2).
  - subst h2. unfold set_list_cells, set_webapp_arrays.
    cbn [env_arrays cond_arrays webapp_arrays webapp_cells list_cells take app].
    rewrite insert_insert_eq, Nat.add_0_r. done.
  - done.
  - subst h2. cbn. by rewrite lookup_insert_ne.
  - subst h2. cbn. by rewrite lookup_insert_eq.
  - subst h2. cbn. by rewrite lookup_insert_ne.
  - subst h2. cbn. by rewrite lookup_insert_eq.
  - by rewrite length_replicate.
Qed.

(** X15. [DeepCopy] of a list that can be read returns a pointer to a list
    struct that was not there before, with the type and list metadata of
    the original.  A list without items gets none; a list with items gets a
    backing array of its own, newly made, of exactly the length of the
    original's items and holding the same structs, so that both lists read
    as the same WebApps.  The original list, its array, the single structs
    and the arrays of environments and conditions are left as they were. *)
Theorem WebAppList_DeepCopy_copies (l : loc) (v : WebAppListCell) (h : Heap)
    (items : list WebAppCell) :
  list_cells h !! l = Some v →
  read_slice (webapp_arrays h) (l_Items v) = Some items →
  ∃ l' v' h',
    WebAppList_DeepCopy (LCell l) h = Done (LCell l', h') ∧
    list_cells h !! l' = None ∧
    list_cells h' = <[l' := v']> (list_cells h) ∧
    l_TypeMeta v' = l_TypeMeta v ∧
    l_ListMeta v' = l_ListMeta v ∧
    (l_Items v = SNil →
     l_Items v' = SNil ∧ webapp_arrays h' = webapp_arrays h) ∧
    (l_Items v ≠ SNil →
     ∃ a', l_Items v' = SArr a' 0 (length items) (length items) ∧
           webapp_arrays h !! a' = None ∧
           webapp_arrays h' = <[a' := items]> (webapp_arrays h)) ∧
    read_items h' (LCell l') = read_items h (LCell l) ∧
    read_items h' (LCell l) = read_items h (LCell l) ∧
    env_arrays h' = env_arrays h ∧
    cond_arrays h' = cond_arrays h ∧
    webapp_cells h' = webapp_cells h.
Proof.
  intros Hl Hr. pose proof (fresh_list_cell h) as Hf.
  assert (fresh (dom (list_cells h)) ≠ l) as Hne by congruence.
  destruct (l_Items v) as [|a off n cap] eqn:Hi.
  - injection Hr as <-.
    rewrite (WebAppList_DeepCopy_nil l v h Hl Hi).
    do 3 eexists. split; [reflexivity|]. split; [done|].
    split; [reflexivity|]. do 3 (split; [done|]). split; [done|].
    unfold read_items. cbn [set_list_cells list_cells webapp_arrays].
    by rewrite lookup_insert_eq, lookup_insert_ne, Hl, Hi.
  - cbn in Hr. destruct (webapp_arrays h !! a) as [arr|] eqn:Ha; [|done].
    case_decide as Hlen; [|done]. injection Hr as <-.
    pose proof (fresh_array h) as Hfa.
    assert (a ≠ fresh (dom (webapp_arrays h))) as Hna by congruence.
    assert (length (take n (drop off arr)) = n) as Hn
      by (rewrite length_take, length_drop; lia).
    rewrite (WebAppList_DeepCopy_items l v h a off n cap arr Hl Hi Ha Hlen).
    do 3 eexists. split; [reflexivity|]. split; [done|].
    split; [reflexivity|]. do 3 (split; [done|]). split.
    { intros _. exists (fresh (dom (webapp_arrays h))). by rewrite !Hn. }
    unfold read_items, read_cell.
    cbn [list_cells webapp_arrays env_arrays cond_arrays].
    split; [|split; [|done]].
    + rewrite lookup_insert_eq, Hl, Hi. cbn [l_Items read_slice].
      rewrite lookup_insert_eq, Ha, Hn. rewrite !decide_True by lia.
      cbn [drop]. by rewrite (firstn_all2 (take n (drop off arr))) by lia.
    + rewrite lookup_insert_ne, Hl, Hi by done. cbn [read_slice].
      by rewrite lookup_insert_ne, Ha by done.
Qed.

Lemma WebAppList_DeepCopy_copies_witness :
  ∃ l' h',
    WebAppList_DeepCopy (LCell 1%positive) app_heap = Done (LCell l', h') ∧
    read_items h' (LCell l') = read_items app_heap (LCell 1%positive).
Proof.
  destruct (WebAppList_DeepCopy_copies 1%positive
              {| l_TypeMeta := {| tm_Kind := "WebAppList";
                                  tm_APIVersion := "example.com/v1" |};
                 l_ListMeta := {| ResourceVersion := "7"; Continue := "";
                                  RemainingItemCount := None |};
                 l_Items := SArr 1%positive 0 1 1 |}
              app_heap [app_cell])
    as (l' & v' & h' & Hc & _ & _ & _ & _ & _ & _ & Hr & _).
  - reflexivity.
  - reflexivity.
  - exists l', h'. split; [exact Hc|exact Hr].
Defined.
